(** * ourboard: event-sourced board store and client send queue

    A shallow embedding of two parts of the repository:

    - the client-side outbound queue (the module with [sendIfPossible],
      [ack], [enqueue] and [onConnect]), modelled as explicit state passing
      with the list of batches handed to [socket.send] as output;
    - the server-side board store ([fetchBoard], [getBoardHistory],
      [getFullBoardHistory], the continuity verifiers and
      [storeEventHistoryBundle]), modelled over a relational database given
      as lists of rows, with thrown errors as a result type and the
      closure variables of [fetchBoard] as an explicit loader state.

    Serial numbers are JavaScript numbers in the source; they are modelled
    as integers ([Z]), a missing ([undefined]) serial as [None]. *)

From stdpp Require Import base list strings gmap.
From Stdlib Require Import ZArith Lia.

Open Scope Z_scope.

(* ===================================================================== *)
(** ** The client-side outbound queue *)
(* ===================================================================== *)

Module SyncQueue.

Section Queue.

Context {AppEvent : Type}.

(** [addOrReplaceEvent] lives in common/src/action-folding, which is not
    among the sources; the queue is verified for every folding function. *)
Variable addOrReplaceEvent : AppEvent -> list AppEvent -> list AppEvent.

Record QueueState := mkQueueState {
  queue : list AppEvent;
  sent : list AppEvent
}.

(** The initial content of the atom. *)
Definition init : QueueState := {| queue := []; sent := [] |}.

(** One element of the output is one call of [socket.send], carrying the
    serialised queue. *)
Definition Batch : Type := list AppEvent.

Definition sendIfPossible (s : QueueState) : QueueState * list Batch :=
  if (0 <? length (sent s))%nat || (length (queue s) =? 0)%nat
  then (s, [])
  else ({| queue := []; sent := queue s |}, [queue s]).

(** The [state.modify] that precedes [sendIfPossible] in each handler. *)
Definition clearSent (s : QueueState) : QueueState :=
  {| queue := queue s; sent := [] |}.

Definition foldIn (event : AppEvent) (s : QueueState) : QueueState :=
  {| queue := addOrReplaceEvent event (queue s); sent := sent s |}.

Definition ack (s : QueueState) : QueueState * list Batch :=
  sendIfPossible (clearSent s).

Definition enqueue (event : AppEvent) (s : QueueState) : QueueState * list Batch :=
  sendIfPossible (foldIn event s).

Definition onConnect (s : QueueState) : QueueState * list Batch :=
  sendIfPossible (clearSent s).

Definition queueSize (s : QueueState) : nat :=
  (length (queue s) + length (sent s))%nat.

(** The three reactions of the queue, and runs of them. *)
Inductive Op := Enqueue (event : AppEvent) | Ack | Reconnect.

(** The state on which a handler calls [sendIfPossible]. *)
Definition atSend (s : QueueState) (op : Op) : QueueState :=
  match op with
  | Enqueue event => foldIn event s
  | Ack => clearSent s
  | Reconnect => clearSent s
  end.

Definition step (s : QueueState) (op : Op) : QueueState * list Batch :=
  match op with
  | Enqueue event => enqueue event s
  | Ack => ack s
  | Reconnect => onConnect s
  end.

Fixpoint run (ops : list Op) (s : QueueState) : QueueState * list Batch :=
  match ops with
  | [] => (s, [])
  | op :: rest =>
      let '(s1, out1) := step s op in
      let '(s2, out2) := run rest s1 in
      (s2, out1 ++ out2)
  end.

Definition isAck (op : Op) : bool :=
  match op with Ack => true | _ => false end.

Definition isReconnect (op : Op) : bool :=
  match op with Reconnect => true | _ => false end.

(** The reconnect handler as the specification words it: the in-flight
    entries are put back in front of the queue, in order, and a send is
    attempted. Used only to compare with [onConnect]. *)
Definition onReconnect_spec (s : QueueState) : QueueState * list Batch :=
  sendIfPossible {| queue := sent s ++ queue s; sent := [] |}.

(** A reaction that is neither an acknowledgement nor a reconnect. *)
Definition quiet (op : Op) : bool :=
  negb (isAck op) && negb (isReconnect op).

(** What waits in the queue waits behind a batch in flight. *)
Definition waiting (s : QueueState) : Prop := queue s = [] \/ sent s <> [].

(** The temporal reading of "no transmission until the acknowledgement":
    from a state reached from [init] with a batch in flight, an enqueue
    followed by any reactions none of which is an acknowledgement
    transmits nothing. *)
Definition silentUntilAck : Prop :=
  forall (pre : list Op) (event : AppEvent) (post : list Op),
    sent (fst (run pre init)) <> [] ->
    forallb (fun op => negb (isAck op)) post = true ->
    snd (run (Enqueue event :: post) (fst (run pre init))) = [].

End Queue.

Arguments QueueState : clear implicits.
Arguments Op : clear implicits.
Arguments Batch : clear implicits.

(** A folding function for concrete runs: nothing folds, every event is
    appended at the tail. *)
Definition appendEvent (event : nat) (q : list nat) : list nat := q ++ [event].

End SyncQueue.

(* ===================================================================== *)
(** ** The server-side board store *)
(* ===================================================================== *)

Module BoardStore.

Definition Id : Type := string.
Definition Serial : Type := Z.

(** Serials are JavaScript numbers, that is IEEE-754 doubles. Every integer
    of magnitude up to 2^53 is a double; from there to 2^54 the doubles are
    the even integers, and further out they lie at least four apart.
    [plusOne a] is [a + 1] as the double addition computes it on a double
    [a] that holds an integer (round to nearest, ties to the even
    significand): exact as long as the sum has magnitude at most 2^53; in
    the range of the even integers the odd sum lies half way between [a] and
    [a + 2] and goes to the one that is a multiple of four; further out the
    sum rounds back to [a]. So [2^53 + 1] is [2^53], and [(2^53 + 2) + 1]
    is [2^53 + 4]. An odd integer beyond 2^53 is no double and cannot occur
    as a serial. *)
Definition twoTo53 : Z := 9007199254740992.

(** [Number.isSafeInteger]. *)
Definition isSafeInteger (x : Z) : Prop := - twoTo53 < x < twoTo53.

Definition plusOne (a : Serial) : Serial :=
  if (- twoTo53 <=? a) && (a <? twoTo53) then a + 1
  else if Z.abs a <? 2 * twoTo53 then (if a mod 4 =? 0 then a else a + 2)
  else a.

(** Every [throw] site of the store, and what the absent collaborators may
    throw. *)
Inductive Error :=
  | UnexpectedDbRowValue
      (* streamingBoardEventsQuery: the row holds no event array *)
  | TypeErrorSerialOfUndefined
      (* reading [.serial] of [chunk[chunk.length - 1]] on an empty chunk *)
  | RequestedSerialInFuture (boardId : Id) (afterSerial : Serial)
      (* getBoardHistory: "Seems like the requested serial is higher ..." *)
  | NonContinuousHistory (boardId : Id) (afterSerial firstValid lastSeen : Serial)
      (* getBoardHistory: "Found history for a..b" *)
  | FoldedEventsNotExpected
      (* storeEventHistoryBundle: assertion on [firstSerial] *)
  | AssertNotNullFailed
  | ReducerThrew (message : string).

Inductive Res (A : Type) :=
  | Ok (a : A)
  | Throw (e : Error).
Arguments Ok {A}.
Arguments Throw {A}.

Definition isOk {A} (r : Res A) : bool :=
  match r with Ok _ => true | Throw _ => false end.

(** Modelled from the spec: the helper assertNotNull (common/src/assertNotNull)
    is not among the sources; by its name and its uses (a serial that a
    persisted history entry always carries) it returns its argument when
    present and throws otherwise. *)
Definition assertNotNull {A} (x : option A) : Res A :=
  match x with
  | Some a => Ok a
  | None => Throw AssertNotNullFailed
  end.

(** Rows of [board_access] as [selectBoardQuery] aggregates them. *)
Record AccessListEntry := mkAccessListEntry {
  domain : option string;
  email : option string;
  access : string
}.

Record BoardAccessPolicy := mkBoardAccessPolicy {
  allowList : list AccessListEntry;
  publicRead : bool;
  publicWrite : bool
}.

Record ReducerOptions := mkReducerOptions {
  inplace : bool;
  strictOnSerials : bool
}.

Section Store.

(** Items, connections and the payload of an event are whatever
    common/src/domain declares; the store never looks inside them. *)
Context {Item Connection Payload : Type}.
(** The second component of the reducer's result, which the loader drops. *)
Context {Inverse : Type}.

(** Modelled from the spec: the Board type (common/src/domain) is not among
    the sources; the fields are those of the spec's data model, which are
    also all the fields the store reads or writes. *)
Record Board := mkBoard {
  id : Id;
  name : string;
  serial : Serial;
  items : gmap Id Item;
  connections : list Connection;
  accessPolicy : option BoardAccessPolicy
}.

(** [{ ...b, serial: s }] *)
Definition withSerial (b : Board) (s : Serial) : Board :=
  {| id := id b; name := name b; serial := s; items := items b;
     connections := connections b; accessPolicy := accessPolicy b |}.

(** [{ ...b, items: {}, connections: [] }] *)
Definition withoutContent (b : Board) : Board :=
  {| id := id b; name := name b; serial := serial b; items := ∅;
     connections := []; accessPolicy := accessPolicy b |}.

Definition withAccessPolicy (b : Board) (p : option BoardAccessPolicy) : Board :=
  {| id := id b; name := name b; serial := serial b; items := items b;
     connections := connections b; accessPolicy := p |}.

(** A history entry: the event's tag and payload, with the optional
    [serial] and [firstSerial] the store inspects. *)
Record BoardHistoryEntry := mkEntry {
  e_action : string;
  e_boardId : Id;
  e_serial : option Serial;
  e_firstSerial : option Serial;
  e_payload : Payload
}.

(** Absent collaborators, taken as they are used. The reducer is a
    function of its arguments that returns a pair or throws: the loader
    calls it with [inplace: true], which by the reducer's contract changes
    no observable result, so the snapshot read at the start of [fetchBoard]
    is the same value throughout the load. *)
Variable boardReducer :
  Board -> BoardHistoryEntry -> ReducerOptions -> Res (Board * Inverse).
Variable migrateEvent : BoardHistoryEntry -> BoardHistoryEntry.
Variable migrateBoard : Board -> Board.

(** *** The database *)

Record BoardRow := mkBoardRow {
  row_id : Id;
  row_name : string;
  row_content : Board;
  public_read : bool;
  public_write : bool
}.

Record BoardAccessRow := mkBoardAccessRow {
  acc_board_id : Id;
  acc_domain : option string;
  acc_email : option string;
  acc_access : string
}.

(** The [events] column holds [{ events: [...] }]; [None] is a row where
    [row.events?.events] is undefined. *)
Record BoardEventRow := mkBoardEventRow {
  ev_board_id : Id;
  first_serial : Serial;
  last_serial : Serial;
  events : option (list BoardHistoryEntry);
  saved_at : Z
}.

Record TokenRow := mkTokenRow {
  tok_board_id : Id;
  token : string
}.

Record DB := mkDB {
  board : list BoardRow;
  board_access : list BoardAccessRow;
  board_event : list BoardEventRow;
  board_api_token : list TokenRow
}.

(** [ORDER BY last_serial]: a stable insertion sort (SQL leaves the order
    of rows with equal keys open). *)
Fixpoint insertByLastSerial (r : BoardEventRow) (rows : list BoardEventRow)
  : list BoardEventRow :=
  match rows with
  | [] => [r]
  | r' :: rest =>
      if last_serial r <? last_serial r' then r :: r' :: rest
      else r' :: insertByLastSerial r rest
  end.

Definition orderByLastSerial (rows : list BoardEventRow) : list BoardEventRow :=
  foldl (fun acc r => insertByLastSerial r acc) [] rows.

(** [selectBoardQuery]: the board's content with [accessPolicy] replaced
    by what the [board] and [board_access] tables say. *)
Definition selectBoard (db : DB) (boardId : Id) : option Board :=
  match List.filter (fun r => bool_decide (row_id r = boardId)) (board db) with
  | [] => None
  | r :: _ =>
      let allow_list :=
        map (fun a => {| domain := acc_domain a; email := acc_email a;
                         access := acc_access a |})
            (List.filter (fun a => bool_decide (acc_board_id a = row_id r))
                         (board_access db)) in
      Some (withAccessPolicy (row_content r)
              match allow_list with
              | [] => None
              | _ :: _ => Some {| allowList := allow_list;
                                  publicRead := public_read r;
                                  publicWrite := public_write r |}
              end)
  end.

(** [SELECT events FROM board_event WHERE board_id=$1 AND last_serial >= $2
    ORDER BY last_serial] *)
Definition selectHistoryAfter (db : DB) (boardId : Id) (afterSerial : Serial)
  : list BoardEventRow :=
  orderByLastSerial
    (List.filter (fun r => bool_decide (ev_board_id r = boardId)
                           && (afterSerial <=? last_serial r))
                 (board_event db)).

(** [SELECT events FROM board_event WHERE board_id=$1 ORDER BY last_serial] *)
Definition selectFullHistory (db : DB) (boardId : Id) : list BoardEventRow :=
  orderByLastSerial
    (List.filter (fun r => bool_decide (ev_board_id r = boardId))
                 (board_event db)).

Definition selectTokens (db : DB) (boardId : Id) : list string :=
  map token
    (List.filter (fun r => bool_decide (tok_board_id r = boardId))
                 (board_api_token db)).

(** *** Streaming a result set to a callback

    The callback runs on the caller's state [St]; when it throws, the
    stream is destroyed and the promise rejects with that error, the
    state staying as the callback left it. *)
Definition StreamingBoardEventCallback (St : Type) : Type :=
  list BoardHistoryEntry -> St -> St * Res unit.

Fixpoint streamingBoardEventsQuery {St : Type} (rows : list BoardEventRow)
    (cb : StreamingBoardEventCallback St) (st : St) : St * Res unit :=
  match rows with
  | [] => (st, Ok tt)
  | row :: rest =>
      match events row with
      | None => (st, Throw UnexpectedDbRowValue)
      | Some chunk =>
          match cb (map migrateEvent chunk) st with
          | (st', Ok _) => streamingBoardEventsQuery rest cb st'
          | (st', Throw e) => (st', Throw e)
          end
      end
  end.

Definition getFullBoardHistory {St : Type} (db : DB) (boardId : Id)
    (cb : StreamingBoardEventCallback St) (st : St) : St * Res unit :=
  streamingBoardEventsQuery (selectFullHistory db boardId) cb st.

(** *** getBoardHistory *)

Record HistoryCursor := mkCursor {
  h_firstSerial : Z;
  h_lastSerial : Z;
  h_firstValidSerial : Z
}.

Definition initCursor : HistoryCursor :=
  {| h_firstSerial := -1; h_lastSerial := -1; h_firstValidSerial := -1 |}.

(** [r.serial! > afterSerial]; an undefined serial compares false. *)
Definition serialAfter (afterSerial : Serial) (r : BoardHistoryEntry) : bool :=
  match e_serial r with
  | Some n => afterSerial <? n
  | None => false
  end.

(** [x === -1 && typeof y === "number" ? y : x] *)
Definition firstSeen (x : Z) (y : option Serial) : Z :=
  if x =? -1 then match y with Some n => n | None => x end else x.

(** The chunk callback that [getBoardHistory] hands to the stream. *)
Definition historyChunk {St : Type} (afterSerial : Serial)
    (cb : StreamingBoardEventCallback St)
    : StreamingBoardEventCallback (HistoryCursor * St) :=
  fun chunk st =>
    let '(h, s) := st in
    let firstSerial := firstSeen (h_firstSerial h) (head chunk ≫= e_serial) in
    match last chunk with
    | None =>
        ({| h_firstSerial := firstSerial; h_lastSerial := h_lastSerial h;
            h_firstValidSerial := h_firstValidSerial h |}, s,
         Throw TypeErrorSerialOfUndefined)
    | Some l =>
        let lastSerial := default (-1) (e_serial l) in
        let validEventsAfter := List.filter (serialAfter afterSerial) chunk in
        match validEventsAfter with
        | [] =>
            ({| h_firstSerial := firstSerial; h_lastSerial := lastSerial;
                h_firstValidSerial := h_firstValidSerial h |}, s, Ok tt)
        | v :: _ =>
            let firstValidSerial :=
              firstSeen (h_firstValidSerial h) (e_serial v) in
            let '(s', r) := cb validEventsAfter s in
            ({| h_firstSerial := firstSerial; h_lastSerial := lastSerial;
                h_firstValidSerial := firstValidSerial |}, s', r)
        end
    end.

(** The verdict after the stream has ended. *)
Definition historyVerdict (boardId : Id) (afterSerial : Serial)
    (h : HistoryCursor) : Res unit :=
  if h_lastSerial h =? afterSerial then Ok tt
  else if h_firstValidSerial h =? plusOne afterSerial then Ok tt
  else if h_firstValidSerial h =? -1 then
    if afterSerial =? 0 then Ok tt
    else Throw (RequestedSerialInFuture boardId afterSerial)
  else Throw (NonContinuousHistory boardId afterSerial
                (h_firstValidSerial h) (h_lastSerial h)).

Definition getBoardHistory {St : Type} (db : DB) (boardId : Id)
    (afterSerial : Serial) (cb : StreamingBoardEventCallback St) (st : St)
    : St * Res unit :=
  match streamingBoardEventsQuery (selectHistoryAfter db boardId afterSerial)
          (historyChunk afterSerial cb) (initCursor, st) with
  | (_, st', Throw e) => (st', Throw e)
  | (h, st', Ok _) => (st', historyVerdict boardId afterSerial h)
  end.

(** *** fetchBoard

    The closure variables of [fetchBoard] that [updateBoardWithEventChunk]
    reads and writes. *)
Record LoaderState := mkLoaderState {
  l_board : Board;
  l_historyEventCount : nat;
  l_lastSerial : Serial;
  l_i : nat;
  l_rebuildingSnapshot : bool
}.

(** The body of the [reduce] callback, without the counter [i]. *)
Definition applyEntry (rebuildingSnapshot : bool) (b : Board)
    (e : BoardHistoryEntry) : Res Board :=
  if bool_decide (e_action e = "board.setAccessPolicy") then
    match assertNotNull (e_serial e) with
    | Ok s => Ok (withSerial b s)
    | Throw err => Throw err
    end
  else
    match boardReducer b e {| inplace := true;
                              strictOnSerials := negb rebuildingSnapshot |} with
    | Ok r => Ok (fst r)
    | Throw err => Throw err
    end.

(** [chunk.reduce(..., board)] with the increments of [i]; a throw leaves
    the reduction, the increments done so far staying. *)
Fixpoint reduceChunk (rebuildingSnapshot : bool)
    (chunk : list BoardHistoryEntry) (b : Board) (i : nat) : Res Board * nat :=
  match chunk with
  | [] => (Ok b, i)
  | e :: rest =>
      match applyEntry rebuildingSnapshot b e with
      | Ok b' => reduceChunk rebuildingSnapshot rest b' (S i)
      | Throw err => (Throw err, S i)
      end
  end.

Definition updateBoardWithEventChunk (snapshot : Board)
    : StreamingBoardEventCallback LoaderState :=
  fun chunk st =>
    match reduceChunk (l_rebuildingSnapshot st) chunk (l_board st) (l_i st) with
    | (Throw err, i) =>
        ({| l_board := l_board st;
            l_historyEventCount := l_historyEventCount st;
            l_lastSerial := l_lastSerial st;
            l_i := i;
            l_rebuildingSnapshot := l_rebuildingSnapshot st |}, Throw err)
    | (Ok b, i) =>
        let count := (l_historyEventCount st + length chunk)%nat in
        match last chunk with
        | None =>
            ({| l_board := b; l_historyEventCount := count;
                l_lastSerial := l_lastSerial st; l_i := i;
                l_rebuildingSnapshot := l_rebuildingSnapshot st |},
             Throw TypeErrorSerialOfUndefined)
        | Some l =>
            ({| l_board := b; l_historyEventCount := count;
                l_lastSerial := default (serial snapshot) (e_serial l);
                l_i := i;
                l_rebuildingSnapshot := l_rebuildingSnapshot st |}, Ok tt)
        end
    end.

Definition initLoader (snapshot : Board) : LoaderState :=
  {| l_board := snapshot; l_historyEventCount := 0; l_lastSerial := 0;
     l_i := 0; l_rebuildingSnapshot := false |}.

(** The assignments at the head of the [catch] handler. *)
Definition rebootLoader (snapshot : Board) (st : LoaderState) : LoaderState :=
  {| l_board := withoutContent snapshot;
     l_historyEventCount := l_historyEventCount st;
     l_lastSerial := l_lastSerial st;
     l_i := 0;
     l_rebuildingSnapshot := true |}.

Definition mkSnapshot (b : Board) (s : Serial) : Board :=
  migrateBoard (withSerial b s).

(** [x || 0] on a number. *)
Definition orZero (x : Serial) : Serial := if x =? 0 then 0 else x.

Record BoardAndAccessTokens := mkBoardAndAccessTokens {
  ba_board : Board;
  accessTokens : list string
}.

(** The statements [fetchBoard] sends to the database, in order. *)
Inductive Query :=
  | QSelectBoard (boardId : Id)
  | QHistoryAfter (boardId : Id) (afterSerial : Serial)
  | QFullHistory (boardId : Id)
  | QSaveSnapshot (snapshot : Board)
  | QSelectTokens (boardId : Id).


Definition isSaveSnapshot (q : Query) : bool :=
  match q with QSaveSnapshot _ => true | _ => false end.

(** Streaming replay from the snapshot and, when it rejects, the handler
    of [.catch]: the loader state after both, the outcome, and the history
    queries issued. *)
Definition replayHistory (db : DB) (boardId : Id) (snapshot : Board)
    : LoaderState * Res unit * list Query :=
  match getBoardHistory db boardId (serial snapshot)
          (updateBoardWithEventChunk snapshot) (initLoader snapshot) with
  | (st1, Ok _) => (st1, Ok tt, [QHistoryAfter boardId (serial snapshot)])
  | (st1, Throw _) =>
      let '(st3, r) :=
        getFullBoardHistory db boardId (updateBoardWithEventChunk snapshot)
          (rebootLoader snapshot st1) in
      (st3, r, [QHistoryAfter boardId (serial snapshot); QFullHistory boardId])
  end.

Definition fetchBoard (db : DB) (boardId : Id)
    : Res (option BoardAndAccessTokens) * list Query :=
  match selectBoard db boardId with
  | None => (Ok None, [QSelectBoard boardId])
  | Some snapshot =>
      match replayHistory db boardId snapshot with
      | (_, Throw e, log) => (Throw e, QSelectBoard boardId :: log)
      | (st, Ok _, log) =>
          let serial' :=
            orZero (if (0 <? l_historyEventCount st)%nat then l_lastSerial st
                    else serial snapshot) in
          let saves :=
            if (1000 <? l_historyEventCount st)%nat || l_rebuildingSnapshot st
            then [QSaveSnapshot (mkSnapshot (l_board st) serial')]
            else [] in
          (Ok (Some {| ba_board := withSerial (l_board st) serial';
                       accessTokens := selectTokens db boardId |}),
           QSelectBoard boardId :: log ++ saves ++ [QSelectTokens boardId])
      end
  end.

(** [UPDATE board set name=$2, content=$3 WHERE id=$1] *)
Definition saveBoardSnapshot (b : Board) (db : DB) : DB :=
  {| board :=
       map (fun r =>
              if bool_decide (row_id r = id b)
              then {| row_id := row_id r; row_name := name b; row_content := b;
                      public_read := public_read r;
                      public_write := public_write r |}
              else r)
           (board db);
     board_access := board_access db;
     board_event := board_event db;
     board_api_token := board_api_token db |}.

(** The effect on the database of one logged statement. *)
Definition applyQuery (db : DB) (q : Query) : DB :=
  match q with
  | QSaveSnapshot b => saveBoardSnapshot b db
  | _ => db
  end.

(** *** Continuity verifiers

    [b !== a + 1] on values that may be undefined: an undefined operand
    never compares equal, and the sum is the sum of doubles. *)
Definition verifyTwoPoints (boardId : Id) (a b : option Serial) : bool :=
  match a, b with
  | Some a, Some b => b =? plusOne a
  | _, _ => false
  end.

Fixpoint verifyEventArrayLoop (boardId : Id) (init : option Serial)
    (evs : list BoardHistoryEntry) : bool :=
  match evs with
  | [] => true
  | event :: rest =>
      if verifyTwoPoints boardId init (e_serial event)
      then verifyEventArrayLoop boardId (e_serial event) rest
      else false
  end.

Definition verifyEventArrayContinuity (boardId : Id) (init : Serial)
    (evs : list BoardHistoryEntry) : bool :=
  verifyEventArrayLoop boardId (Some init) evs.

Fixpoint verifyContinuityLoop (boardId : Id) (init : option Serial)
    (histories : list (list BoardHistoryEntry)) : bool :=
  match histories with
  | [] => true
  | history :: rest =>
      match head history, last history with
      | Some h0, Some hn =>
          if verifyTwoPoints boardId init (e_serial h0)
          then verifyContinuityLoop boardId (e_serial hn) rest
          else false
      | _, _ => verifyContinuityLoop boardId init rest
      end
  end.

Definition verifyContinuity (boardId : Id) (init : Serial)
    (histories : list (list BoardHistoryEntry)) : bool :=
  verifyContinuityLoop boardId (Some init) histories.

(** *** storeEventHistoryBundle *)

Definition insertBoardEvent (row : BoardEventRow) (db : DB) : DB :=
  {| board := board db;
     board_access := board_access db;
     board_event := board_event db ++ [row];
     board_api_token := board_api_token db |}.

Definition storeEventHistoryBundle (db : DB) (boardId : Id)
    (evs : list BoardHistoryEntry) (savedAt : Z) : DB * Res unit :=
  match evs with
  | [] => (db, Ok tt)
  | e0 :: _ =>
      match e_firstSerial e0 with
      | Some _ => (db, Throw FoldedEventsNotExpected)
      | None =>
          match assertNotNull (e_serial e0) with
          | Throw err => (db, Throw err)
          | Ok firstSerial =>
              match assertNotNull (last evs ≫= e_serial) with
              | Throw err => (db, Throw err)
              | Ok lastSerial =>
                  (insertBoardEvent
                     {| ev_board_id := boardId; first_serial := firstSerial;
                        last_serial := lastSerial; events := Some evs;
                        saved_at := savedAt |} db, Ok tt)
              end
          end
      end
  end.

Definition saveRecentEvents (db : DB) (boardId : Id)
    (recentEvents : list BoardHistoryEntry) (savedAt : Z) : DB * Res unit :=
  storeEventHistoryBundle db boardId recentEvents savedAt.

(** The highest serial persisted for a board: the greatest [last_serial]
    among its bundles, if it has any. *)
Definition storedTail (db : DB) (boardId : Id) : option Serial :=
  last (selectFullHistory db boardId) ≫= fun r => Some (last_serial r).

(** *** Vocabulary for the statements

    The chunks a result set delivers (each row's event array, migrated),
    a result set on which the stream itself cannot fail, a callback fed
    chunk after chunk until it throws, and the chunks [getBoardHistory]
    passes on to its caller's callback. *)
Definition streamed (rows : list BoardEventRow) : list (list BoardHistoryEntry) :=
  omap (fun r => option_map (map migrateEvent) (events r)) rows.

Definition hasEvents (r : BoardEventRow) : bool :=
  match events r with Some _ => true | None => false end.

Definition hasNonEmptyEvents (r : BoardEventRow) : bool :=
  match events r with Some (_ :: _) => true | _ => false end.

Fixpoint feed {St : Type} (cb : StreamingBoardEventCallback St)
    (chunks : list (list BoardHistoryEntry)) (st : St) : St * Res unit :=
  match chunks with
  | [] => (st, Ok tt)
  | chunk :: rest =>
      match cb chunk st with
      | (st', Ok _) => feed cb rest st'
      | (st', Throw e) => (st', Throw e)
      end
  end.

Definition nonEmpty (chunk : list BoardHistoryEntry) : bool :=
  match chunk with [] => false | _ :: _ => true end.

Definition delivered (afterSerial : Serial) (rows : list BoardEventRow)
  : list (list BoardHistoryEntry) :=
  List.filter nonEmpty (map (List.filter (serialAfter afterSerial)) (streamed rows)).

(** What the cursor of [getBoardHistory] holds once a stream of events has
    gone by: the serial of the last event seen ([-1] when it has none),
    and the serial of the first event after the requested serial. *)
Definition lastSeenSerial (d : Z) (evs : list BoardHistoryEntry) : Z :=
  match last evs with
  | Some l => default (-1) (e_serial l)
  | None => d
  end.

Definition firstValidSerialOf (afterSerial : Serial) (x : Z)
    (evs : list BoardHistoryEntry) : Z :=
  if x =? -1
  then default (-1) (head (List.filter (serialAfter afterSerial) evs) ≫= e_serial)
  else x.

(** The three ways in which a streamed history passes [getBoardHistory]:
    nothing after the requested serial when asking from 0, the stream
    ends exactly at the requested serial, or the first event after the
    requested serial is the next one. *)
Definition historyAccepted (afterSerial : Serial)
    (evs : list BoardHistoryEntry) : Prop :=
  (List.filter (serialAfter afterSerial) evs = [] /\ afterSerial = 0)
  \/ last evs ≫= e_serial = Some afterSerial
  \/ head (List.filter (serialAfter afterSerial) evs) ≫= e_serial
     = Some (afterSerial + 1).

(** Entries whose serials, where present, are safe integers. *)
Definition safeSerials (evs : list BoardHistoryEntry) : Prop :=
  forall e s, In e evs -> e_serial e = Some s -> isSafeInteger s.

(** Two serials, possibly undefined, of which the second is the first
    plus one. *)
Definition follows (a b : option Serial) : Prop :=
  exists x, a = Some x /\ b = Some (x + 1).

(** The entry-by-entry fold of the loader with a fixed strictness, as the
    specification words the replay: access-policy events only move the
    serial, every other entry goes through the reducer. *)
Definition foldEntry (strict : bool) (b : Board) (e : BoardHistoryEntry)
  : Res Board :=
  if bool_decide (e_action e = "board.setAccessPolicy") then
    match e_serial e with
    | Some s => Ok (withSerial b s)
    | None => Throw AssertNotNullFailed
    end
  else
    match boardReducer b e {| inplace := true; strictOnSerials := strict |} with
    | Ok r => Ok (fst r)
    | Throw err => Throw err
    end.

Fixpoint foldEntries (strict : bool) (b : Board)
    (evs : list BoardHistoryEntry) : Res Board :=
  match evs with
  | [] => Ok b
  | e :: rest =>
      match foldEntry strict b e with
      | Ok b' => foldEntries strict b' rest
      | Throw err => Throw err
      end
  end.

End Store.

Arguments Board : clear implicits.
Arguments BoardHistoryEntry : clear implicits.
Arguments BoardRow : clear implicits.
Arguments BoardEventRow : clear implicits.
Arguments DB : clear implicits.
Arguments LoaderState : clear implicits.
Arguments BoardAndAccessTokens : clear implicits.
Arguments Query : clear implicits.
Arguments StreamingBoardEventCallback : clear implicits.

(** *** A concrete store

    Used to run the definitions on explicit inputs. Items, connections,
    payloads and the reducer's second component carry no data; events and
    boards need no migration. *)

(** Modelled from the spec: boardReducer (common/src/board-reducer) is not
    among the sources. As in the spec's contract of the reducer, with
    strictOnSerials it rejects an entry whose serial is not the board's
    serial plus one, and otherwise accepts the serial as given; the result
    carries the entry's serial. What the reducer does to items is left out. *)
Definition specReducer (b : Board unit unit) (e : BoardHistoryEntry unit)
    (o : ReducerOptions) : Res (Board unit unit * unit) :=
  match e_serial e with
  | Some s =>
      if strictOnSerials o && negb (s =? serial b + 1)
      then Throw (ReducerThrew "serial skip")
      else Ok (withSerial b s, tt)
  | None => Ok (b, tt)
  end.

Definition noMigrateEvent (e : BoardHistoryEntry unit) : BoardHistoryEntry unit := e.
Definition noMigrateBoard (b : Board unit unit) : Board unit unit := b.

Definition demoEntry (action : string) (s : Serial) : BoardHistoryEntry unit :=
  {| e_action := action; e_boardId := "b1"; e_serial := Some s;
     e_firstSerial := None; e_payload := tt |}.

Definition demoBoard (s : Serial) : Board unit unit :=
  {| id := "b1"; name := "demo"; serial := s; items := {[ "n1" := tt ]};
     connections := [tt]; accessPolicy := None |}.

Definition demoBundle (evs : list (BoardHistoryEntry unit)) (f l : Serial)
    : BoardEventRow unit :=
  {| ev_board_id := "b1"; first_serial := f; last_serial := l;
     events := Some evs; saved_at := 0 |}.

(** A board stored at serial 0 whose log holds serials 1 and 3, serial 2
    missing. *)
Definition gapDB : DB unit unit unit :=
  {| board := [ {| row_id := "b1"; row_name := "demo"; row_content := demoBoard 0;
                   public_read := true; public_write := true |} ];
     board_access := [];
     board_event := [ demoBundle [demoEntry "item.add" 1] 1 1;
                      demoBundle [demoEntry "item.move" 3] 3 3 ];
     board_api_token := [ {| tok_board_id := "b1"; token := "t0" |} ] |}.


(** A log that ends at serial 5. *)
Definition tailDB : DB unit unit unit :=
  {| board := board gapDB;
     board_access := [];
     board_event :=
       [ demoBundle (map (demoEntry "item.add") [1; 2; 3; 4; 5]) 1 5 ];
     board_api_token := [] |}.

(** The loader state of [gapDB] when its replay from the snapshot is
    rejected: serial 1 has been applied, serial 3 was refused. *)
Definition gapRejected : LoaderState unit unit :=
  {| l_board := withSerial (demoBoard 0) 1; l_historyEventCount := 1;
     l_lastSerial := 1; l_i := 2; l_rebuildingSnapshot := false |}.

(** What [fetchBoard] returns for [gapDB] after the rebuild. *)
Definition gapRebuilt : BoardAndAccessTokens unit unit :=
  {| ba_board := {| id := "b1"; name := "demo"; serial := 3; items := ∅;
                    connections := []; accessPolicy := None |};
     accessTokens := ["t0"] |}.

Definition gapLog : list (Query unit unit) :=
  [ QSelectBoard "b1"; QHistoryAfter "b1" 0; QFullHistory "b1";
    QSaveSnapshot (ba_board gapRebuilt); QSelectTokens "b1" ].

(** A callback that accepts every chunk. *)
Definition acceptingCallback : StreamingBoardEventCallback unit unit :=
  fun _ st => (st, Ok tt).

(** A log whose only bundle carries the serial 2^53 + 4. *)
Definition farDB : DB unit unit unit :=
  {| board := board gapDB;
     board_access := [];
     board_event :=
       [ demoBundle [demoEntry "item.add" (twoTo53 + 4)]
                    (twoTo53 + 4) (twoTo53 + 4) ];
     board_api_token := [] |}.

(** A callback that throws on every chunk. *)
Definition throwingCallback : StreamingBoardEventCallback unit unit :=
  fun _ st => (st, Throw (ReducerThrew "callback")).

End BoardStore.

(* ===================================================================== *)
(** ** Vocabulary for more properties of the outbound queue *)
(* ===================================================================== *)

Module SyncQueueMore.
Import SyncQueue.

Section Tracks.

Context {AppEvent : Type}.

(** What has been transmitted so far agrees with the state: every batch is
    non-empty and the in-flight list, unless empty, is the last batch. *)
Definition tracks (out : list (Batch AppEvent)) (s : QueueState AppEvent) : Prop :=
  Forall (fun batch => batch <> []) out
  /\ (sent s = [] \/ last out = Some (sent s)).

End Tracks.

End SyncQueueMore.

(* ===================================================================== *)
(** ** The rest of the board store: bundle reads, board rows, tokens *)
(* ===================================================================== *)

Module BoardAdmin.
Import BoardStore.

(** What [createBoard] and [updateBoard] throw themselves. *)
Inductive AdminError :=
  | BoardAlreadyExists (boardId : Id)
  | BoardNotFound (boardId : Id).

Inductive Outcome :=
  | Done
  | Failed (e : AdminError).

Section Admin.

Context {Item Connection Payload : Type}.
Variable migrateEvent : BoardHistoryEntry Payload -> BoardHistoryEntry Payload.
Variable migrateBoard : Board Item Connection -> Board Item Connection.
(** [isBoardEmpty] and [mkBootStrapEvent] come from common/src, which is not
    among the sources. *)
Variable isBoardEmpty : Board Item Connection -> bool.
Variable mkBootStrapEvent :
  Id -> Board Item Connection -> BoardHistoryEntry Payload.

(** *** Bundle reads *)

Record BoardHistoryBundle := mkBundle {
  hb_board_id : Id;
  hb_last_serial : Serial;
  hb_events : list (BoardHistoryEntry Payload)
}.

(** [migrateBundle] on a row; reading [.events.map] of a row without an
    event array is a TypeError, here [None]. *)
Definition migrateBundle (r : BoardEventRow Payload) : option BoardHistoryBundle :=
  match events r with
  | Some evs => Some {| hb_board_id := ev_board_id r;
                        hb_last_serial := last_serial r;
                        hb_events := map migrateEvent evs |}
  | None => None
  end.

(** [rows.map(f)] for an [f] that may throw: [None] when it throws on some
    row. *)
Fixpoint mapThrowing {A B : Type} (f : A -> option B) (l : list A)
  : option (list B) :=
  match l with
  | [] => Some []
  | x :: rest =>
      match f x with
      | None => None
      | Some y =>
          match mapThrowing f rest with
          | None => None
          | Some ys => Some (y :: ys)
          end
      end
  end.

Definition getBoardHistoryBundles (db : DB Item Connection Payload) (boardId : Id)
  : option (list BoardHistoryBundle) :=
  mapThrowing migrateBundle (selectFullHistory db boardId).

(** [... AND last_serial >= $2 AND last_serial <= $3 ORDER BY last_serial] *)
Definition getBoardHistoryBundlesWithLastSerialsBetween
    (db : DB Item Connection Payload) (boardId : Id) (lsMin lsMax : Serial)
  : option (list BoardHistoryBundle) :=
  mapThrowing migrateBundle
    (orderByLastSerial
       (List.filter (fun r => bool_decide (ev_board_id r = boardId)
                              && (lsMin <=? last_serial r)
                              && (last_serial r <=? lsMax))
                    (board_event db))).

Record BoardHistoryBundleMeta := mkMeta {
  m_board_id : Id;
  m_first_serial : Serial;
  m_last_serial : Serial;
  m_saved_at : Z
}.

Definition metaOfRow (r : BoardEventRow Payload) : BoardHistoryBundleMeta :=
  {| m_board_id := ev_board_id r; m_first_serial := first_serial r;
     m_last_serial := last_serial r; m_saved_at := saved_at r |}.

Definition getBoardHistoryBundleMetas (db : DB Item Connection Payload)
    (boardId : Id) : list BoardHistoryBundleMeta :=
  map metaOfRow (selectFullHistory db boardId).

Fixpoint verifyContinuityFromMetas (boardId : Id) (init : Serial)
    (bundles : list BoardHistoryBundleMeta) : bool :=
  match bundles with
  | [] => true
  | bundle :: rest =>
      if verifyTwoPoints boardId (Some init) (Some (m_first_serial bundle))
      then verifyContinuityFromMetas boardId (m_last_serial bundle) rest
      else false
  end.

Definition findAllBoards (db : DB Item Connection Payload) : list Id :=
  map row_id (board db).

(** *** Access policy, board rows, tokens *)

(** [UPDATE board SET public_read=$1, public_write=$2 WHERE id=$3], then
    [DELETE FROM board_access WHERE board_id=$1], then one [INSERT] per
    entry of the allow list. *)
Definition updateAccessPolicy (db : DB Item Connection Payload) (boardId : Id)
    (accessPolicy : option BoardAccessPolicy) : DB Item Connection Payload :=
  let publicRead' :=
    match accessPolicy with Some p => publicRead p | None => true end in
  let publicWrite' :=
    match accessPolicy with Some p => publicWrite p | None => true end in
  {| board :=
       map (fun r =>
              if bool_decide (row_id r = boardId)
              then {| row_id := row_id r; row_name := row_name r;
                      row_content := row_content r;
                      public_read := publicRead'; public_write := publicWrite' |}
              else r)
           (board db);
     board_access :=
       List.filter (fun a => negb (bool_decide (acc_board_id a = boardId)))
                   (board_access db)
       ++ match accessPolicy with
          | Some p =>
              map (fun entry => {| acc_board_id := boardId;
                                   acc_domain := domain entry;
                                   acc_email := email entry;
                                   acc_access := access entry |})
                  (allowList p)
          | None => []
          end;
     board_event := board_event db;
     board_api_token := board_api_token db |}.

(** [{ ...content, name }] *)
Definition withName (b : Board Item Connection) (n : string) : Board Item Connection :=
  {| id := id b; name := n; serial := serial b; items := items b;
     connections := connections b; accessPolicy := accessPolicy b |}.

Definition rowsOf (db : DB Item Connection Payload) (boardId : Id)
  : list (BoardRow Item Connection) :=
  List.filter (fun r => bool_decide (row_id r = boardId)) (board db).

(** [createBoard]. The [INSERT] names no value for the two policy columns;
    [columnDefault] stands for what the schema gives them, and
    [updateAccessPolicy] overwrites both at once. The bootstrap append is not
    awaited: what it throws is lost and the transaction goes on. *)
Definition createBoard (columnDefault : bool) (db : DB Item Connection Payload)
    (b : Board Item Connection) (savedAt : Z)
  : DB Item Connection Payload * Outcome :=
  match rowsOf db (id b) with
  | _ :: _ => (db, Failed (BoardAlreadyExists (id b)))
  | [] =>
      let db1 :=
        {| board := board db ++ [ {| row_id := id b; row_name := name b;
                                     row_content := mkSnapshot migrateBoard b 0;
                                     public_read := columnDefault;
                                     public_write := columnDefault |} ];
           board_access := board_access db;
           board_event := board_event db;
           board_api_token := board_api_token db |} in
      let db2 := updateAccessPolicy db1 (id b) (accessPolicy b) in
      if negb (isBoardEmpty b)
      then (fst (storeEventHistoryBundle db2 (id b)
                   [mkBootStrapEvent (id b) b] savedAt), Done)
      else (db2, Done)
  end.

(** [updateBoard]; an empty [name] is falsy and keeps the stored name. *)
Definition updateBoard (db : DB Item Connection Payload) (boardId : Id)
    (name' : string) (accessPolicy' : option BoardAccessPolicy)
  : DB Item Connection Payload * Outcome :=
  match rowsOf db boardId with
  | [r] =>
      let content0 := row_content r in
      let content1 :=
        if bool_decide (name' = "") then content0 else withName content0 name' in
      let name1 :=
        if bool_decide (name' = "") then name content0 else name' in
      let content2 :=
        match accessPolicy' with
        | Some p => withAccessPolicy content1 (Some p)
        | None => content1
        end in
      let db1 :=
        {| board :=
             map (fun r' =>
                    if bool_decide (row_id r' = boardId)
                    then {| row_id := row_id r'; row_name := name1;
                            row_content := content2;
                            public_read := public_read r';
                            public_write := public_write r' |}
                    else r')
                 (board db);
           board_access := board_access db;
           board_event := board_event db;
           board_api_token := board_api_token db |} in
      (updateAccessPolicy db1 boardId accessPolicy', Done)
  | _ => (db, Failed (BoardNotFound boardId))
  end.

(** [createAccessToken]; the fresh uuid is an argument. *)
Definition createAccessToken (db : DB Item Connection Payload)
    (b : Board Item Connection) (token' : string) : DB Item Connection Payload :=
  {| board := board db;
     board_access := board_access db;
     board_event := board_event db;
     board_api_token :=
       board_api_token db ++ [ {| tok_board_id := id b; token := token' |} ] |}.

(** What the policy tables hold for a board, as [selectBoardQuery] reads
    them back for one of its rows. *)
Definition storedPolicy (db : DB Item Connection Payload)
    (r : BoardRow Item Connection) : option BoardAccessPolicy :=
  match List.filter (fun a => bool_decide (acc_board_id a = row_id r))
                    (board_access db) with
  | [] => None
  | a :: rest =>
      Some {| allowList :=
                map (fun a => {| domain := acc_domain a; email := acc_email a;
                                 access := acc_access a |}) (a :: rest);
              publicRead := public_read r;
              publicWrite := public_write r |}
  end.

(** A policy as it reads back from the tables: a policy with an empty
    allow list leaves no row in [board_access], and a board without rows
    there reads as having no policy. *)
Definition readBackPolicy (policy : option BoardAccessPolicy)
  : option BoardAccessPolicy :=
  match policy with
  | Some p => match allowList p with [] => None | _ :: _ => Some p end
  | None => None
  end.

(** A bundle row tagged the way [storeEventHistoryBundle] tags it: it
    holds a non-empty event array, and its [first_serial] and [last_serial]
    are the serials of the first and of the last entry. *)
Definition taggedByEnds (r : BoardEventRow Payload) : Prop :=
  exists evs,
    events r = Some evs
    /\ head evs ≫= e_serial = Some (first_serial r)
    /\ last evs ≫= e_serial = Some (last_serial r).

(** The event arrays of a list of rows, as stored. *)
Definition storedHistories (rows : list (BoardEventRow Payload))
  : list (list (BoardHistoryEntry Payload)) :=
  omap events rows.

(** A history whose entries are consecutive among themselves. *)
Definition internallyContinuous (boardId : Id)
    (history : list (BoardHistoryEntry Payload)) : bool :=
  match history with
  | [] => true
  | h0 :: rest => verifyEventArrayLoop boardId (e_serial h0) rest
  end.

(** Ascending order of [last_serial]. *)
Fixpoint ascending (rows : list (BoardEventRow Payload)) : Prop :=
  match rows with
  | [] => True
  | r :: rest =>
      (forall r', In r' rest -> last_serial r <= last_serial r') /\ ascending rest
  end.

End Admin.

Arguments BoardHistoryBundle : clear implicits.

(** An entry that forms a one-entry allow list. *)
Definition demoAllow : AccessListEntry :=
  {| domain := Some "example.com"; email := None; access := "read-write" |}.

Definition demoPolicy : BoardAccessPolicy :=
  {| allowList := [demoAllow]; publicRead := true; publicWrite := false |}.

Definition neverEmpty (b : Board unit unit) : bool := false.
Definition alwaysEmpty (b : Board unit unit) : bool := true.
Definition demoBootstrap (boardId : Id) (b : Board unit unit)
  : BoardHistoryEntry unit :=
  {| e_action := "board.add"; e_boardId := boardId; e_serial := Some 1;
     e_firstSerial := None; e_payload := tt |}.

(** A store whose snapshot is at the end of its log: serials 1 to 5
    stored, the board saved at serial 5. *)
Definition currentDB : DB unit unit unit :=
  {| board := [ {| row_id := "b1"; row_name := "demo"; row_content := demoBoard 5;
                   public_read := true; public_write := true |} ];
     board_access := [];
     board_event := board_event tailDB;
     board_api_token := [ {| tok_board_id := "b1"; token := "t0" |} ] |}.

(** A bootstrap event that was given no serial. *)
Definition demoBootstrapNoSerial (boardId : Id) (b : Board unit unit)
  : BoardHistoryEntry unit :=
  {| e_action := "board.add"; e_boardId := boardId; e_serial := None;
     e_firstSerial := None; e_payload := tt |}.

(** A store with nothing in it, and a board with no items to create. *)
Definition emptyDB : DB unit unit unit :=
  {| board := []; board_access := []; board_event := []; board_api_token := [] |}.

Definition blankBoard : Board unit unit :=
  {| id := "b2"; name := "blank"; serial := 0; items := ∅; connections := [];
     accessPolicy := Some demoPolicy |}.

End BoardAdmin.

(* ===================================================================== *)
(** ** The API token check of the HTTP routes *)
(* ===================================================================== *)

Module ApiAccess.
Import BoardStore.

(** What a handler may throw, as the [catch] clauses tell them apart. *)
Inductive Thrown :=
  | InvalidRequest (message : string)
  | OtherError.

Inductive Response (T : Type) :=
  | BadRequest (message : string)
  | InternalServerError
  | Returned (value : T).
Arguments BadRequest {T}.
Arguments InternalServerError {T}.
Arguments Returned {T}.

Section Access.

Context {Item Connection T : Type}.

(** [getBoard] lives in board-state, which is not among the sources: it may
    throw, and elsewhere its result is tested for null. *)
Inductive Loaded :=
  | GetThrew (e : Thrown)
  | GotNull
  | Got (state : BoardAndAccessTokens Item Connection).

(** The [catch] clause shared by the handlers. *)
Definition onThrown (e : Thrown) : Response T :=
  match e with
  | InvalidRequest message => BadRequest message
  | OtherError => InternalServerError
  end.

Definition respond (r : Thrown + T) : Response T :=
  match r with
  | inl e => onThrown e
  | inr v => Returned v
  end.

(** [!apiToken]: the header is absent or empty. *)
Definition tokenMissing (apiToken : option string) : bool :=
  match apiToken with
  | None => true
  | Some t => bool_decide (t = "")
  end.

Definition checkBoardAPIAccess (getBoard : Id -> Loaded) (boardId : Id)
    (apiToken : option string)
    (fn : BoardAndAccessTokens Item Connection -> Thrown + T) : Response T :=
  match getBoard boardId with
  | GetThrew e => onThrown e
  | GotNull => InternalServerError
  | Got state =>
      if bool_decide (accessPolicy (ba_board state) <> None)
         || (0 <? length (accessTokens state))%nat
      then
        if tokenMissing apiToken
        then BadRequest "API_TOKEN header is missing"
        else if existsb (fun t => bool_decide (Some t = apiToken))
                        (accessTokens state)
             then respond (fn state)
             else BadRequest "Invalid API_TOKEN"
      else respond (fn state)
  end.

(** A request passes the check: the board is open (no policy, no tokens),
    or it carries a non-empty token that is on the board's list. *)
Definition granted (state : BoardAndAccessTokens Item Connection)
    (apiToken : option string) : Prop :=
  (accessPolicy (ba_board state) = None /\ accessTokens state = [])
  \/ exists t, apiToken = Some t /\ t <> "" /\ In t (accessTokens state).

End Access.

Arguments Loaded : clear implicits.

End ApiAccess.

(* ===================================================================== *)
(** ** Moving an item into a container *)
(* ===================================================================== *)

Module Containers.

Section Container.

(** Position and size of an item, of which only [containedBy] (geometry,
    not among the sources) makes use. *)
Context {Geometry : Type}.

Record Item := mkItem {
  i_type : string;
  i_id : string;
  i_items : list string;
  i_geometry : Geometry
}.

Variable containedBy : Item -> Item -> bool.

Record Board := mkBoard {
  b_id : string;
  b_items : list Item
}.

Inductive AppEvent :=
  | ItemSetContainer (boardId itemId : string) (containerId : option string).

Definition isContainer (i : Item) : bool :=
  bool_decide (i_type i = "container").

(** [array.find]: the first element that passes, with its position, which
    stands for the identity of the object found. *)
Fixpoint findFrom (p : Item -> bool) (k : nat) (l : list Item)
  : option (nat * Item) :=
  match l with
  | [] => None
  | i :: rest => if p i then Some (k, i) else findFrom p (S k) rest
  end.

Definition find (p : Item -> bool) (l : list Item) : option (nat * Item) :=
  findFrom p 0 l.

(** [a != b] on two results of [find] over the same array. *)
Definition differ (a b : option (nat * Item)) : bool :=
  match a, b with
  | None, None => false
  | Some (k, _), Some (k', _) => negb (k =? k')%nat
  | _, _ => true
  end.

Definition lists (item i : Item) : bool :=
  isContainer i && existsb (fun x => bool_decide (x = i_id item)) (i_items i).

Definition holds (item i : Item) : bool :=
  isContainer i && containedBy item i.

(** The events handed to [dispatch], in order. *)
Definition maybeAddToContainer (item : Item) (b : Board) : list AppEvent :=
  if negb (isContainer item) then
    let currentContainer := find (lists item) (b_items b) in
    if match currentContainer with
       | Some (_, c) => containedBy item c
       | None => false
       end
    then []
    else
      let newContainer := find (holds item) (b_items b) in
      if differ newContainer currentContainer
      then [ItemSetContainer (b_id b) (i_id item)
              (option_map (fun f => i_id (snd f)) newContainer)]
      else []
  else [].

End Container.

Arguments Item : clear implicits.
Arguments Board : clear implicits.

(** Items on a line: an item is inside a container when its position lies
    in the container's span. *)
Definition inSpan (item c : Item (Z * Z)) : bool :=
  (fst (i_geometry c) <=? fst (i_geometry item))
  && (fst (i_geometry item) <=? snd (i_geometry c)).

Definition demoNote : Item (Z * Z) :=
  {| i_type := "note"; i_id := "n1"; i_items := []; i_geometry := (15, 15) |}.

Definition demoContainers : Board (Z * Z) :=
  {| b_id := "b1";
     b_items := [ demoNote;
                  {| i_type := "container"; i_id := "c1"; i_items := ["n1"];
                     i_geometry := (0, 9) |};
                  {| i_type := "container"; i_id := "c2"; i_items := [];
                     i_geometry := (10, 19) |} ] |}.

End Containers.

(* ===================================================================== *)
(** ** Properties of the outbound queue *)
(* ===================================================================== *)

Module SyncQueueFacts.
Import SyncQueue.

Section Facts.

Context {AppEvent : Type}.
Variable addOrReplaceEvent : AppEvent -> list AppEvent -> list AppEvent.

Lemma step_atSend (s : QueueState AppEvent) (op : Op AppEvent) :
  step addOrReplaceEvent s op = sendIfPossible (atSend addOrReplaceEvent s op).
Proof. destruct op; reflexivity. Qed.

Lemma run_cons (op : Op AppEvent) (ops : list (Op AppEvent))
    (s : QueueState AppEvent) :
  run addOrReplaceEvent (op :: ops) s =
    (fst (run addOrReplaceEvent ops (fst (step addOrReplaceEvent s op))),
     snd (step addOrReplaceEvent s op)
       ++ snd (run addOrReplaceEvent ops (fst (step addOrReplaceEvent s op)))).
Proof.
  simpl. destruct (step addOrReplaceEvent s op) as [s1 out1]; simpl.
  destruct (run addOrReplaceEvent ops s1); reflexivity.
Qed.

Lemma sendIfPossible_cases (m : QueueState AppEvent) :
  ((sent m <> [] \/ queue m = []) /\ sendIfPossible m = (m, []))
  \/ (sent m = [] /\ queue m <> []
      /\ sendIfPossible m = ({| queue := []; sent := queue m |}, [queue m])).
Proof.
  unfold sendIfPossible.
  destruct m as [q t]; simpl.
  destruct t as [|x t]; destruct q as [|y q]; simpl;
    first [ left; split; [ (left; discriminate) || (right; reflexivity) | reflexivity ]
          | right; repeat split; discriminate ].
Qed.

Lemma sendIfPossible_waiting (m : QueueState AppEvent) :
  waiting (fst (sendIfPossible m)).
Proof.
  destruct (sendIfPossible_cases m) as [[Hm ->]|(Hs & Hq & ->)]; simpl.
  - destruct Hm; [right|left]; assumption.
  - left; reflexivity.
Qed.

Lemma run_waiting (ops : list (Op AppEvent)) (s : QueueState AppEvent) :
  waiting s -> waiting (fst (run addOrReplaceEvent ops s)).
Proof.
  revert s; induction ops as [|op ops IH]; intros s Hs; [exact Hs|].
  rewrite run_cons; cbn [fst].
  apply IH. rewrite step_atSend. apply sendIfPossible_waiting.
Qed.

Lemma quiet_step_silent (op : Op AppEvent) (s : QueueState AppEvent) :
  sent s <> [] ->
  quiet op = true ->
  snd (step addOrReplaceEvent s op) = []
  /\ sent (fst (step addOrReplaceEvent s op)) = sent s.
Proof.
  intros Hs Hop.
  destruct op as [event| |]; try discriminate Hop.
  simpl. unfold enqueue, sendIfPossible; simpl.
  destruct (sent s) as [|x t] eqn:Et; [congruence|].
  simpl. rewrite Et. split; reflexivity.
Qed.

Lemma quiet_run_silent (post : list (Op AppEvent)) (s : QueueState AppEvent) :
  sent s <> [] ->
  forallb quiet post = true ->
  snd (run addOrReplaceEvent post s) = []
  /\ sent (fst (run addOrReplaceEvent post s)) = sent s.
Proof.
  revert s; induction post as [|op post IH]; intros s Hs Hq; [split; reflexivity|].
  simpl in Hq; apply andb_prop in Hq as [Hop Hq].
  destruct (quiet_step_silent op s Hs Hop) as [Hout Hsent].
  rewrite run_cons; cbn [fst snd].
  destruct (IH (fst (step addOrReplaceEvent s op))) as [Hout' Hsent'];
    [congruence|assumption|].
  rewrite Hout, Hout', Hsent', Hsent. split; reflexivity.
Qed.

(** C2, as the code has it: a reconnect empties the in-flight list
    without putting its entries back; the queue alone decides what is
    transmitted next. Nothing of [sent s] survives in the result. *)
Theorem onConnect_drops_in_flight (s : QueueState AppEvent) :
  onConnect s =
    match queue s with
    | [] => ({| queue := []; sent := [] |}, [])
    | _ :: _ => ({| queue := []; sent := queue s |}, [queue s])
    end.
Proof.
  unfold onConnect, sendIfPossible, clearSent; simpl.
  destruct (queue s); reflexivity.
Qed.

(** C3, with the reconnect taken into account: in every state reached
    from the empty queue, each reaction transmits either nothing (a batch
    is in flight or the queue is empty when it tries to send) or exactly
    the whole queue as one batch, which becomes the in-flight list while
    the queue is cleared; and once a batch is in flight, reactions that
    are neither an acknowledgement nor a reconnect transmit nothing and
    leave the in-flight list as it is. *)
Theorem one_batch_in_flight (pre : list (Op AppEvent)) :
  let s := fst (run addOrReplaceEvent pre init) in
  (forall op : Op AppEvent,
      let m := atSend addOrReplaceEvent s op in
      ((sent m <> [] \/ queue m = [])
       /\ step addOrReplaceEvent s op = (m, []))
      \/ (sent m = [] /\ queue m <> []
          /\ step addOrReplaceEvent s op
             = ({| queue := []; sent := queue m |}, [queue m])))
  /\ waiting s
  /\ (forall post : list (Op AppEvent),
         sent s <> [] ->
         forallb quiet post = true ->
         snd (run addOrReplaceEvent post s) = []
         /\ sent (fst (run addOrReplaceEvent post s)) = sent s).
Proof.
  intros s; split; [|split].
  - intros op m. rewrite step_atSend. apply sendIfPossible_cases.
  - apply run_waiting. left; reflexivity.
  - intros post. apply quiet_run_silent.
Qed.

End Facts.

(** C2 as stated fails: after one enqueue the event is in flight; a
    reconnect then leaves it neither queued nor in flight and sends
    nothing, where putting it back in front of the queue would have sent
    it again. *)
Lemma onConnect_loses_in_flight_event :
  let s := fst (run appendEvent [Enqueue 1%nat] init) in
  sent s = [1%nat]
  /\ onConnect s = ({| queue := []; sent := [] |}, [])
  /\ onReconnect_spec s = ({| queue := []; sent := [1%nat] |}, [[1%nat]])
  /\ onConnect s <> onReconnect_spec s.
Proof. repeat split; simpl; discriminate. Qed.

(** C3 as stated fails: with event 1 in flight and event 2 enqueued behind
    it, a reconnect transmits event 2 although no acknowledgement has
    arrived. *)
Lemma reconnect_transmits_before_ack : ~ silentUntilAck appendEvent.
Proof.
  intros H.
  specialize (H [Enqueue 1%nat] 2%nat [Reconnect]).
  simpl in H. discriminate H; [discriminate|reflexivity].
Qed.

Lemma one_batch_in_flight_witness :
  let s := fst (run appendEvent [Enqueue 1%nat] init) in
  snd (run appendEvent [Enqueue 2%nat; Enqueue 3%nat] s) = []
  /\ sent (fst (run appendEvent [Enqueue 2%nat; Enqueue 3%nat] s)) = sent s.
Proof.
  apply (proj2 (proj2 (one_batch_in_flight appendEvent [Enqueue 1%nat]))).
  - discriminate.
  - reflexivity.
Defined.

End SyncQueueFacts.

(* ===================================================================== *)
(** ** Properties of the board store *)
(* ===================================================================== *)

Module BoardStoreFacts.
Import BoardStore.

Section Verifier.

Context {Payload : Type}.

Lemma plusOne_safe (a : Serial) : isSafeInteger a -> plusOne a = a + 1.
Proof.
  unfold isSafeInteger, plusOne. intros [Hlo Hhi].
  destruct (Z.leb_spec (- twoTo53) a) as [_|F]; [|lia].
  destruct (Z.ltb_spec a twoTo53) as [_|F]; [reflexivity|lia].
Qed.

Lemma verifyTwoPoints_follows (boardId : Id) (a b : option Serial) :
  (forall x, a = Some x -> isSafeInteger x) ->
  verifyTwoPoints boardId a b = true <-> follows a b.
Proof.
  intros Hsafe. unfold verifyTwoPoints, follows; split.
  - destruct a as [x|], b as [y|]; try discriminate.
    rewrite (plusOne_safe x) by (apply Hsafe; reflexivity).
    intros H; apply Z.eqb_eq in H; subst y; eauto.
  - intros (x & -> & ->).
    rewrite (plusOne_safe x) by (apply Hsafe; reflexivity).
    apply Z.eqb_refl.
Qed.

Lemma safeSerials_tail (event : BoardHistoryEntry Payload)
    (rest : list (BoardHistoryEntry Payload)) :
  safeSerials (event :: rest) ->
  (forall x, e_serial event = Some x -> isSafeInteger x) /\ safeSerials rest.
Proof.
  intros H. split.
  - intros x Hx. exact (H event x (or_introl eq_refl) Hx).
  - intros e s He. apply H. right; exact He.
Qed.

Lemma verifyEventArrayLoop_false (boardId : Id)
    (evs : list (BoardHistoryEntry Payload)) (init : option Serial) :
  (forall x, init = Some x -> isSafeInteger x) ->
  safeSerials evs ->
  verifyEventArrayLoop boardId init evs = false <->
  exists (i : nat) (a b : option Serial),
    (init :: map e_serial evs) !! i = Some a
    /\ (init :: map e_serial evs) !! S i = Some b
    /\ ~ follows a b.
Proof.
  revert init; induction evs as [|event rest IH]; intros init Hinit Hsafe; simpl.
  - split; [discriminate|].
    intros (i & a & b & _ & Hb & _). destruct i; discriminate Hb.
  - destruct (safeSerials_tail _ _ Hsafe) as [Hevent Hrest].
    pose proof (verifyTwoPoints_follows boardId init (e_serial event) Hinit) as Hf.
    destruct (verifyTwoPoints boardId init (e_serial event)) eqn:E.
    + rewrite (IH _ Hevent Hrest). pose proof (proj1 Hf eq_refl) as Hfol.
      split.
      * intros (i & a & b & Ha & Hb & Hn).
        exists (S i), a, b; auto.
      * intros (i & a & b & Ha & Hb & Hn).
        destruct i as [|i].
        -- simpl in Ha, Hb. injection Ha as <-. injection Hb as <-.
           contradiction.
        -- exists i, a, b; auto.
    + split; [|reflexivity]. intros _.
      exists 0%nat, init, (e_serial event). repeat split.
      intros F. apply Hf in F. discriminate F.
Qed.

Lemma verifyEventArrayLoop_true (boardId : Id)
    (evs : list (BoardHistoryEntry Payload)) (init : Serial) :
  isSafeInteger init ->
  safeSerials evs ->
  verifyEventArrayLoop boardId (Some init) evs = true <->
  forall (i : nat) (e : BoardHistoryEntry Payload),
    evs !! i = Some e -> e_serial e = Some (init + Z.of_nat i + 1).
Proof.
  revert init; induction evs as [|event rest IH]; intros init Hinit Hsafe;
    cbn [verifyEventArrayLoop].
  - split; [|reflexivity]. intros _ i e H. discriminate H.
  - destruct (safeSerials_tail _ _ Hsafe) as [Hevent Hrest].
    assert (Hf : verifyTwoPoints boardId (Some init) (e_serial event) = true
                 <-> follows (Some init) (e_serial event)).
    { apply verifyTwoPoints_follows. intros x Hx. injection Hx as <-. exact Hinit. }
    destruct (verifyTwoPoints boardId (Some init) (e_serial event)) eqn:E.
    + destruct (proj1 Hf eq_refl) as (x & Hx & Hs). injection Hx as <-.
      rewrite Hs. rewrite (IH (init + 1) (Hevent _ Hs) Hrest). split.
      * intros H [|i] e He; simpl in He.
        -- injection He as <-. rewrite Hs. f_equal. lia.
        -- rewrite (H i e He). f_equal. lia.
      * intros H i e He. rewrite (H (S i) e He). f_equal. lia.
    + split; [discriminate|]. intros H.
      specialize (H 0%nat event eq_refl).
      assert (F : follows (Some init) (e_serial event)).
      { exists init. split; [reflexivity|]. rewrite H. f_equal. lia. }
      apply Hf in F. discriminate F.
Qed.

(** C6, within the safe integers: when the start serial and the serials of
    the entries are safe integers (of magnitude below 2^53, where adding one
    is exact), the verifier over a flat sequence of entries answers false
    exactly when some adjacent pair of serials, the start serial counting as
    the element before the first, is not a serial followed by its successor;
    and it answers true exactly when the i-th entry (from 0) carries the
    start serial plus i plus one. *)
Theorem verifyEventArrayContinuity_adjacent (boardId : Id) (init : Serial)
    (evs : list (BoardHistoryEntry Payload)) :
  isSafeInteger init ->
  safeSerials evs ->
  (verifyEventArrayContinuity boardId init evs = false <->
   exists (i : nat) (a b : option Serial),
     (Some init :: map e_serial evs) !! i = Some a
     /\ (Some init :: map e_serial evs) !! S i = Some b
     /\ ~ follows a b)
  /\ (verifyEventArrayContinuity boardId init evs = true <->
      forall (i : nat) (e : BoardHistoryEntry Payload),
        evs !! i = Some e -> e_serial e = Some (init + Z.of_nat i + 1)).
Proof.
  intros Hinit Hsafe. split.
  - apply verifyEventArrayLoop_false; [|exact Hsafe].
    intros x Hx. injection Hx as <-. exact Hinit.
  - apply verifyEventArrayLoop_true; assumption.
Qed.

End Verifier.

Section Loader.

Context {Item Connection Payload Inverse : Type}.
Variable boardReducer :
  Board Item Connection -> BoardHistoryEntry Payload -> ReducerOptions
  -> Res (Board Item Connection * Inverse).
Variable migrateEvent : BoardHistoryEntry Payload -> BoardHistoryEntry Payload.
Variable migrateBoard : Board Item Connection -> Board Item Connection.

(** *** Streams and callbacks *)

Lemma streamed_cons (r : BoardEventRow Payload) (rows : list (BoardEventRow Payload)) :
  streamed migrateEvent (r :: rows) =
    match events r with
    | Some chunk => map migrateEvent chunk :: streamed migrateEvent rows
    | None => streamed migrateEvent rows
    end.
Proof. unfold streamed; simpl. destruct (events r); reflexivity. Qed.

Lemma stream_is_feed {St : Type} (cb : StreamingBoardEventCallback Payload St)
    (rows : list (BoardEventRow Payload)) (st : St) :
  forallb hasEvents rows = true ->
  streamingBoardEventsQuery migrateEvent rows cb st
  = feed cb (streamed migrateEvent rows) st.
Proof.
  revert st; induction rows as [|r rows IH]; intros st Hw; [reflexivity|].
  simpl in Hw; apply andb_prop in Hw as [Hr Hw].
  rewrite streamed_cons. unfold hasEvents in Hr. simpl.
  destruct (events r) as [chunk|]; [|discriminate]. simpl.
  destruct (cb (map migrateEvent chunk) st) as [st' [u|e]]; auto.
Qed.

Lemma stream_ok_hasEvents {St : Type} (cb : StreamingBoardEventCallback Payload St)
    (rows : list (BoardEventRow Payload)) (st : St) :
  snd (streamingBoardEventsQuery migrateEvent rows cb st) = Ok tt ->
  forallb hasEvents rows = true.
Proof.
  revert st; induction rows as [|r rows IH]; intros st; simpl; [reflexivity|].
  unfold hasEvents at 1.
  destruct (events r) as [chunk|]; [|discriminate]. simpl.
  destruct (cb (map migrateEvent chunk) st) as [st' [u|e]]; [apply IH|discriminate].
Qed.

Lemma concat_delivered (afterSerial : Serial) (rows : list (BoardEventRow Payload)) :
  concat (delivered migrateEvent afterSerial rows)
  = List.filter (serialAfter afterSerial) (concat (streamed migrateEvent rows)).
Proof.
  unfold delivered.
  induction (streamed migrateEvent rows) as [|chunk chunks IH]; [reflexivity|].
  simpl. rewrite List.filter_app, <- IH.
  destruct (List.filter (serialAfter afterSerial) chunk); reflexivity.
Qed.

(** *** The cursor of getBoardHistory *)

Lemma lastSeenSerial_app (d : Z) (c evs : list (BoardHistoryEntry Payload)) :
  lastSeenSerial d (c ++ evs) = lastSeenSerial (lastSeenSerial d c) evs.
Proof.
  unfold lastSeenSerial. rewrite last_app.
  destruct (last evs); reflexivity.
Qed.

Lemma serialAfter_serial (afterSerial : Serial) (e : BoardHistoryEntry Payload) :
  serialAfter afterSerial e = true ->
  exists n, e_serial e = Some n /\ afterSerial < n.
Proof.
  unfold serialAfter. destruct (e_serial e) as [n|]; [|discriminate].
  intros H; apply Z.ltb_lt in H; eauto.
Qed.

Lemma filter_head_true {A : Type} (p : A -> bool) (l : list A) (x : A) (t : list A) :
  List.filter p l = x :: t -> p x = true.
Proof.
  intros H. assert (Hin : In x (List.filter p l)) by (rewrite H; left; reflexivity).
  apply List.filter_In in Hin. tauto.
Qed.

Lemma firstValidSerialOf_app (afterSerial : Serial) (x : Z)
    (c evs : list (BoardHistoryEntry Payload)) :
  -1 <= afterSerial ->
  firstValidSerialOf afterSerial x (c ++ evs)
  = firstValidSerialOf afterSerial
      (match List.filter (serialAfter afterSerial) c with
       | [] => x
       | v :: _ => firstSeen x (e_serial v)
       end) evs.
Proof.
  intros Hafter. unfold firstValidSerialOf, firstSeen.
  rewrite List.filter_app.
  destruct (List.filter (serialAfter afterSerial) c) as [|v t] eqn:Ec; simpl.
  - reflexivity.
  - destruct (serialAfter_serial afterSerial v (filter_head_true _ _ _ _ Ec))
      as (n & -> & Hn).
    simpl. destruct (x =? -1) eqn:Ex.
    + replace (n =? -1) with false by (symmetry; apply Z.eqb_neq; lia).
      reflexivity.
    + rewrite Ex. reflexivity.
Qed.

Lemma stream_cons {St : Type} (cb : StreamingBoardEventCallback Payload St)
    (r : BoardEventRow Payload) (rows : list (BoardEventRow Payload))
    (chunk : list (BoardHistoryEntry Payload)) (st : St) :
  events r = Some chunk ->
  streamingBoardEventsQuery migrateEvent (r :: rows) cb st
  = match cb (map migrateEvent chunk) st with
    | (st', Ok _) => streamingBoardEventsQuery migrateEvent rows cb st'
    | (st', Throw e) => (st', Throw e)
    end.
Proof. intros H. simpl. rewrite H. reflexivity. Qed.

Lemma historyChunk_skip {St : Type} (afterSerial : Serial)
    (cb : StreamingBoardEventCallback Payload St)
    (chunk : list (BoardHistoryEntry Payload)) (l : BoardHistoryEntry Payload)
    (h : HistoryCursor) (st : St) :
  last chunk = Some l ->
  List.filter (serialAfter afterSerial) chunk = [] ->
  exists h',
    historyChunk afterSerial cb chunk (h, st) = (h', st, Ok tt)
    /\ h_lastSerial h' = default (-1) (e_serial l)
    /\ h_firstValidSerial h' = h_firstValidSerial h.
Proof.
  intros Hl Hv. unfold historyChunk. rewrite Hl, Hv. eauto.
Qed.

Lemma historyChunk_pass {St : Type} (afterSerial : Serial)
    (cb : StreamingBoardEventCallback Payload St)
    (chunk : list (BoardHistoryEntry Payload)) (l v : BoardHistoryEntry Payload)
    (t : list (BoardHistoryEntry Payload)) (h : HistoryCursor) (st : St) :
  last chunk = Some l ->
  List.filter (serialAfter afterSerial) chunk = v :: t ->
  exists h',
    historyChunk afterSerial cb chunk (h, st)
    = (h', fst (cb (v :: t) st), snd (cb (v :: t) st))
    /\ h_lastSerial h' = default (-1) (e_serial l)
    /\ h_firstValidSerial h' = firstSeen (h_firstValidSerial h) (e_serial v).
Proof.
  intros Hl Hv. unfold historyChunk. rewrite Hl, Hv.
  destruct (cb (v :: t) st) as [s' r]. eauto.
Qed.

Lemma nonEmpty_map_last (x : BoardHistoryEntry Payload)
    (c : list (BoardHistoryEntry Payload)) :
  exists l, last (map migrateEvent (x :: c)) = Some l.
Proof.
  destruct (last (map migrateEvent (x :: c))) eqn:El; [eauto|].
  apply last_None in El. discriminate El.
Qed.

Lemma history_stream_feed {St : Type} (afterSerial : Serial)
    (cb : StreamingBoardEventCallback Payload St)
    (rows : list (BoardEventRow Payload)) (h : HistoryCursor) (st : St) :
  forallb hasNonEmptyEvents rows = true ->
  let out := streamingBoardEventsQuery migrateEvent rows
               (historyChunk afterSerial cb) (h, st) in
  (snd (fst out), snd out) = feed cb (delivered migrateEvent afterSerial rows) st.
Proof.
  revert h st.
  induction rows as [|r rows IH]; intros h st Hw out; subst out; [reflexivity|].
  cbn [forallb] in Hw; apply andb_prop in Hw as [Hr Hw].
  unfold hasNonEmptyEvents in Hr.
  destruct (events r) as [[|x c]|] eqn:Er; try discriminate. clear Hr.
  rewrite (stream_cons _ _ _ _ _ Er).
  unfold delivered. rewrite streamed_cons, Er.
  destruct (nonEmpty_map_last x c) as [l Hl].
  set (chunk := map migrateEvent (x :: c)) in *.
  cbn [map List.filter].
  fold (delivered migrateEvent afterSerial rows).
  destruct (List.filter (serialAfter afterSerial) chunk) as [|v t] eqn:Ev.
  - destruct (historyChunk_skip afterSerial cb chunk l h st Hl Ev)
      as (h' & -> & _).
    cbn [nonEmpty]. apply (IH h' st Hw).
  - destruct (historyChunk_pass afterSerial cb chunk l v t h st Hl Ev)
      as (h' & -> & _).
    cbn [nonEmpty feed].
    destruct (cb (v :: t) st) as [st' [u|e]]; cbn [fst snd].
    + apply (IH h' st' Hw).
    + reflexivity.
Qed.

Lemma history_stream_cursor {St : Type} (afterSerial : Serial)
    (cb : StreamingBoardEventCallback Payload St)
    (rows : list (BoardEventRow Payload)) (h : HistoryCursor) (st : St) :
  -1 <= afterSerial ->
  forallb hasNonEmptyEvents rows = true ->
  let out := streamingBoardEventsQuery migrateEvent rows
               (historyChunk afterSerial cb) (h, st) in
  snd out = Ok tt ->
  h_lastSerial (fst (fst out))
  = lastSeenSerial (h_lastSerial h) (concat (streamed migrateEvent rows))
  /\ h_firstValidSerial (fst (fst out))
     = firstValidSerialOf afterSerial (h_firstValidSerial h)
         (concat (streamed migrateEvent rows)).
Proof.
  intros Hafter. revert h st.
  induction rows as [|r rows IH]; intros h st Hw out; subst out.
  - simpl. intros _. split.
    + reflexivity.
    + unfold firstValidSerialOf; simpl. destruct (_ =? _) eqn:E; [|reflexivity].
      apply Z.eqb_eq in E. congruence.
  - cbn [forallb] in Hw; apply andb_prop in Hw as [Hr Hw].
    unfold hasNonEmptyEvents in Hr.
    destruct (events r) as [[|x c]|] eqn:Er; try discriminate. clear Hr.
    rewrite (stream_cons _ _ _ _ _ Er).
    rewrite streamed_cons, Er.
    destruct (nonEmpty_map_last x c) as [l Hl].
    set (chunk := map migrateEvent (x :: c)) in *.
    cbn [concat]. rewrite lastSeenSerial_app, firstValidSerialOf_app by assumption.
    unfold lastSeenSerial at 2. rewrite Hl.
    destruct (List.filter (serialAfter afterSerial) chunk) as [|v t] eqn:Ev.
    + destruct (historyChunk_skip afterSerial cb chunk l h st Hl Ev)
        as (h' & -> & Hl' & Hf').
      rewrite <- Hl', <- Hf'. apply (IH h' st Hw).
    + destruct (historyChunk_pass afterSerial cb chunk l v t h st Hl Ev)
        as (h' & -> & Hl' & Hf').
      destruct (cb (v :: t) st) as [st' [u|e]]; cbn [fst snd].
      * rewrite <- Hl', <- Hf'. apply (IH h' st' Hw).
      * discriminate.
Qed.

Lemma history_stream_ok {St : Type} (afterSerial : Serial)
    (cb : StreamingBoardEventCallback Payload St)
    (rows : list (BoardEventRow Payload)) (h : HistoryCursor) (st : St) :
  snd (streamingBoardEventsQuery migrateEvent rows
         (historyChunk afterSerial cb) (h, st)) = Ok tt ->
  forallb hasNonEmptyEvents rows = true.
Proof.
  revert h st; induction rows as [|r rows IH]; intros h st H; [reflexivity|].
  cbn [forallb]. unfold hasNonEmptyEvents at 1.
  destruct (events r) as [[|x c]|] eqn:Er.
  - rewrite (stream_cons _ _ _ _ _ Er) in H. discriminate H.
  - rewrite (stream_cons _ _ _ _ _ Er) in H.
    destruct (historyChunk afterSerial cb (map migrateEvent (x :: c)) (h, st))
      as [[h' st'] [u|e]]; [exact (IH h' st' H)|discriminate H].
  - simpl in H. rewrite Er in H. discriminate H.
Qed.

(** *** getBoardHistory *)

Lemma lastSeenSerial_eq (afterSerial : Serial)
    (evs : list (BoardHistoryEntry Payload)) :
  0 <= afterSerial ->
  lastSeenSerial (-1) evs = afterSerial
  <-> last evs ≫= e_serial = Some afterSerial.
Proof.
  intros Hafter. unfold lastSeenSerial.
  destruct (last evs) as [l|]; simpl.
  - destruct (e_serial l) as [n|]; simpl; split; intros H;
      try congruence; try lia.
  - split; intros H; [lia|discriminate].
Qed.

Lemma firstValidSerialOf_none (afterSerial : Serial)
    (evs : list (BoardHistoryEntry Payload)) :
  List.filter (serialAfter afterSerial) evs = [] ->
  firstValidSerialOf afterSerial (-1) evs = -1.
Proof. intros H. unfold firstValidSerialOf. rewrite H. reflexivity. Qed.

Lemma firstValidSerialOf_some (afterSerial : Serial)
    (evs : list (BoardHistoryEntry Payload)) (v : BoardHistoryEntry Payload)
    (t : list (BoardHistoryEntry Payload)) :
  List.filter (serialAfter afterSerial) evs = v :: t ->
  exists n, e_serial v = Some n /\ afterSerial < n
            /\ firstValidSerialOf afterSerial (-1) evs = n.
Proof.
  intros H.
  destruct (serialAfter_serial afterSerial v (filter_head_true _ _ _ _ H))
    as (n & En & Hn).
  exists n. repeat split; try assumption.
  unfold firstValidSerialOf. rewrite H. simpl. rewrite En. reflexivity.
Qed.

Lemma historyVerdict_accepted (boardId : Id) (afterSerial : Serial)
    (h : HistoryCursor) (evs : list (BoardHistoryEntry Payload)) :
  0 <= afterSerial < twoTo53 ->
  h_lastSerial h = lastSeenSerial (-1) evs ->
  h_firstValidSerial h = firstValidSerialOf afterSerial (-1) evs ->
  historyVerdict boardId afterSerial h = Ok tt <-> historyAccepted afterSerial evs.
Proof.
  intros [Hafter Hsafe] Hl Hf.
  unfold historyVerdict, historyAccepted. rewrite Hl, Hf. clear Hl Hf.
  rewrite (plusOne_safe afterSerial)
    by (unfold isSafeInteger, twoTo53 in *; lia).
  clear Hsafe.
  pose proof (lastSeenSerial_eq afterSerial evs Hafter) as Hlast.
  destruct (Z.eqb_spec (lastSeenSerial (-1) evs) afterSerial) as [E1|E1].
  { split; [|reflexivity]. intros _. right; left. apply Hlast, E1. }
  assert (Hnl : last evs ≫= e_serial <> Some afterSerial).
  { intros F. apply Hlast in F. contradiction. }
  clear Hlast E1.
  destruct (List.filter (serialAfter afterSerial) evs) as [|v t] eqn:Ev.
  - rewrite (firstValidSerialOf_none _ _ Ev).
    destruct (Z.eqb_spec (-1) (afterSerial + 1)) as [E2|E2]; [lia|].
    destruct (Z.eqb_spec (-1) (-1)) as [_|E3]; [|contradiction].
    destruct (Z.eqb_spec afterSerial 0) as [E0|E0].
    + split; [|reflexivity]. intros _. left; auto.
    + split; [discriminate|].
      intros [[_ H]|[H|H]]; [contradiction|contradiction|discriminate].
  - destruct (firstValidSerialOf_some _ _ _ _ Ev) as (n & En & Hn & ->).
    destruct (Z.eqb_spec n (afterSerial + 1)) as [E2|E2].
    + split; [|reflexivity]. intros _.
      right; right. simpl. rewrite En, E2. reflexivity.
    + destruct (Z.eqb_spec n (-1)) as [E3|E3]; [lia|].
      split; [discriminate|].
      intros [[H _]|[H|H]]; [discriminate|contradiction|].
      simpl in H. rewrite En in H. injection H as H. contradiction.
Qed.

Lemma getBoardHistory_feed {St : Type} (db : DB Item Connection Payload)
    (boardId : Id) (afterSerial : Serial)
    (cb : StreamingBoardEventCallback Payload St) (st : St) :
  forallb hasNonEmptyEvents (selectHistoryAfter db boardId afterSerial) = true ->
  let fed := feed cb (delivered migrateEvent afterSerial
                        (selectHistoryAfter db boardId afterSerial)) st in
  fst (getBoardHistory migrateEvent db boardId afterSerial cb st) = fst fed
  /\ (snd (getBoardHistory migrateEvent db boardId afterSerial cb st) = Ok tt ->
      snd fed = Ok tt)
  /\ (forall e, snd fed = Throw e ->
      snd (getBoardHistory migrateEvent db boardId afterSerial cb st) = Throw e).
Proof.
  intros Hw fed; subst fed. unfold getBoardHistory.
  pose proof (history_stream_feed afterSerial cb _ initCursor st Hw) as Hfeed.
  destruct (streamingBoardEventsQuery _ _ _ _) as [[h st'] r]; simpl in Hfeed.
  rewrite <- Hfeed; simpl.
  destruct r as [[]|e]; simpl; repeat split; try discriminate; try congruence.
Qed.

(** C5, with what the claim leaves out: for a requested serial that is
    non-negative and a safe integer (below 2^53, where the successor the
    code computes is the successor),
    [getBoardHistory] completes without error exactly when the
    stream itself goes through (every row selected holds a non-empty event
    array and the callback throws on none of the chunks handed to it) and
    the streamed history is accepted: nothing after the requested serial
    and the request is from 0, or the last streamed serial is the requested
    one, or the first event after the requested serial is the next serial.
    In every other case it throws. *)
Theorem getBoardHistory_accepts {St : Type} (db : DB Item Connection Payload)
    (boardId : Id) (afterSerial : Serial)
    (cb : StreamingBoardEventCallback Payload St) (st : St) :
  0 <= afterSerial < twoTo53 ->
  let rows := selectHistoryAfter db boardId afterSerial in
  (snd (getBoardHistory migrateEvent db boardId afterSerial cb st) = Ok tt <->
   forallb hasNonEmptyEvents rows = true
   /\ snd (feed cb (delivered migrateEvent afterSerial rows) st) = Ok tt
   /\ historyAccepted afterSerial (concat (streamed migrateEvent rows)))
  /\ (snd (getBoardHistory migrateEvent db boardId afterSerial cb st) <> Ok tt ->
      exists e, snd (getBoardHistory migrateEvent db boardId afterSerial cb st)
                = Throw e).
Proof.
  intros Hafter rows. split.
  - unfold getBoardHistory. fold rows.
    pose proof (history_stream_ok afterSerial cb rows initCursor st) as Hok.
    pose proof (history_stream_feed afterSerial cb rows initCursor st) as Hs.
    pose proof (history_stream_cursor afterSerial cb rows initCursor st
                  ltac:(lia)) as Hc.
    destruct (streamingBoardEventsQuery _ _ _ _) as [[h st'] r].
    simpl in Hok, Hs, Hc. split.
    + intros H. destruct r as [[]|e]; [|discriminate H]. simpl in H.
      specialize (Hok eq_refl).
      pose proof (Hs Hok) as Hfeed.
      destruct (Hc Hok eq_refl) as [Hl Hf].
      repeat split; [assumption|rewrite <- Hfeed; reflexivity|].
      apply (historyVerdict_accepted boardId afterSerial h); assumption.
    + intros (Hw & Hfed & Hacc).
      pose proof (Hs Hw) as Hfeed.
      rewrite <- Hfeed in Hfed; simpl in Hfed. subst r.
      destruct (Hc Hw eq_refl) as [Hl Hf]. simpl.
      apply (historyVerdict_accepted boardId afterSerial h _ Hafter Hl Hf).
      exact Hacc.
  - intros H.
    destruct (snd (getBoardHistory migrateEvent db boardId afterSerial cb st))
      as [[]|e]; [contradiction|eauto].
Qed.

(** *** The chunk callback of fetchBoard *)

Lemma applyEntry_foldEntry (rebuildingSnapshot : bool)
    (b : Board Item Connection) (e : BoardHistoryEntry Payload) :
  applyEntry boardReducer rebuildingSnapshot b e
  = foldEntry boardReducer (negb rebuildingSnapshot) b e.
Proof.
  unfold applyEntry, foldEntry, assertNotNull.
  destruct (bool_decide _); [destruct (e_serial e)|]; reflexivity.
Qed.

Lemma reduceChunk_foldEntries (rebuildingSnapshot : bool)
    (chunk : list (BoardHistoryEntry Payload)) (b : Board Item Connection)
    (i : nat) :
  fst (reduceChunk boardReducer rebuildingSnapshot chunk b i)
  = foldEntries boardReducer (negb rebuildingSnapshot) b chunk.
Proof.
  revert b i; induction chunk as [|e rest IH]; intros b i; simpl; [reflexivity|].
  rewrite applyEntry_foldEntry.
  destruct (foldEntry boardReducer (negb rebuildingSnapshot) b e); [apply IH|reflexivity].
Qed.

Lemma foldEntries_app (strict : bool) (b : Board Item Connection)
    (c evs : list (BoardHistoryEntry Payload)) :
  foldEntries boardReducer strict b (c ++ evs)
  = match foldEntries boardReducer strict b c with
    | Ok b' => foldEntries boardReducer strict b' evs
    | Throw err => Throw err
    end.
Proof.
  revert b; induction c as [|e rest IH]; intros b; simpl; [reflexivity|].
  destruct (foldEntry boardReducer strict b e); [apply IH|reflexivity].
Qed.

Lemma update_keeps_flag (snapshot : Board Item Connection)
    (chunk : list (BoardHistoryEntry Payload))
    (st : LoaderState Item Connection) :
  l_rebuildingSnapshot
    (fst (updateBoardWithEventChunk boardReducer snapshot chunk st))
  = l_rebuildingSnapshot st.
Proof.
  unfold updateBoardWithEventChunk.
  destruct (reduceChunk _ _ _ _ _) as [[b|err] i]; [|reflexivity].
  destruct (last chunk); reflexivity.
Qed.

Lemma update_ok (snapshot : Board Item Connection)
    (chunk : list (BoardHistoryEntry Payload))
    (st st' : LoaderState Item Connection) :
  updateBoardWithEventChunk boardReducer snapshot chunk st = (st', Ok tt) ->
  foldEntries boardReducer (negb (l_rebuildingSnapshot st)) (l_board st) chunk
  = Ok (l_board st')
  /\ l_historyEventCount st' = (l_historyEventCount st + length chunk)%nat
  /\ exists l, last chunk = Some l
               /\ l_lastSerial st' = default (serial snapshot) (e_serial l).
Proof.
  unfold updateBoardWithEventChunk.
  rewrite <- reduceChunk_foldEntries with (i := l_i st).
  destruct (reduceChunk _ _ _ _ _) as [[b|err] i]; simpl; [|discriminate].
  destruct (last chunk) as [l|]; [|discriminate].
  intros H; injection H as <-. simpl. eauto.
Qed.

Lemma lastSerial_app (snapshot : Board Item Connection)
    (c evs : list (BoardHistoryEntry Payload)) (l : BoardHistoryEntry Payload)
    (d : Serial) :
  last c = Some l ->
  match last (c ++ evs) with
  | Some l' => default (serial snapshot) (e_serial l')
  | None => d
  end
  = match last evs with
    | Some l' => default (serial snapshot) (e_serial l')
    | None => default (serial snapshot) (e_serial l)
    end.
Proof. intros H. rewrite last_app, H. destruct (last evs); reflexivity. Qed.

Lemma feed_update_ok (snapshot : Board Item Connection)
    (chunks : list (list (BoardHistoryEntry Payload)))
    (st st' : LoaderState Item Connection) :
  feed (updateBoardWithEventChunk boardReducer snapshot) chunks st = (st', Ok tt) ->
  foldEntries boardReducer (negb (l_rebuildingSnapshot st)) (l_board st)
    (concat chunks) = Ok (l_board st')
  /\ l_historyEventCount st'
     = (l_historyEventCount st + length (concat chunks))%nat
  /\ l_lastSerial st'
     = match last (concat chunks) with
       | Some l => default (serial snapshot) (e_serial l)
       | None => l_lastSerial st
       end.
Proof.
  revert st; induction chunks as [|chunk chunks IH]; intros st H.
  - injection H as <-. simpl. repeat split. lia.
  - cbn [feed] in H.
    pose proof (update_keeps_flag snapshot chunk st) as Hflag.
    destruct (updateBoardWithEventChunk boardReducer snapshot chunk st)
      as [st1 [[]|e]] eqn:E1; [|discriminate H].
    simpl in Hflag.
    destruct (update_ok _ _ _ _ E1) as (Hb & Hc & l & Hl & Hs).
    destruct (IH st1 H) as (Hb' & Hc' & Hs').
    cbn [concat]. rewrite foldEntries_app, Hb, <- Hflag.
    repeat split; [assumption|rewrite Hc', Hc, length_app; lia|].
    rewrite Hs', (lastSerial_app snapshot _ _ l _ Hl), Hs. reflexivity.
Qed.

Lemma stream_invariant {St : Type} (P : St -> Prop)
    (cb : StreamingBoardEventCallback Payload St)
    (rows : list (BoardEventRow Payload)) (st : St) :
  (forall c s, P s -> P (fst (cb c s))) ->
  P st ->
  P (fst (streamingBoardEventsQuery migrateEvent rows cb st)).
Proof.
  intros Hcb. revert st; induction rows as [|r rows IH]; intros st Hst; simpl.
  - exact Hst.
  - destruct (events r) as [chunk|]; [|exact Hst].
    specialize (Hcb (map migrateEvent chunk) st Hst).
    destruct (cb (map migrateEvent chunk) st) as [st' [u|e]]; simpl in *; auto.
Qed.

Lemma historyChunk_invariant {St : Type} (P : St -> Prop)
    (afterSerial : Serial) (cb : StreamingBoardEventCallback Payload St)
    (chunk : list (BoardHistoryEntry Payload)) (hs : HistoryCursor * St) :
  (forall c s, P s -> P (fst (cb c s))) ->
  P (snd hs) ->
  P (snd (fst (historyChunk afterSerial cb chunk hs))).
Proof.
  intros Hcb Hs. destruct hs as [h st]. unfold historyChunk.
  destruct (last chunk); [|exact Hs].
  destruct (List.filter (serialAfter afterSerial) chunk) as [|v t]; [exact Hs|].
  specialize (Hcb (v :: t) st Hs).
  destruct (cb (v :: t) st); exact Hcb.
Qed.

Lemma getBoardHistory_invariant {St : Type} (P : St -> Prop)
    (db : DB Item Connection Payload) (boardId : Id) (afterSerial : Serial)
    (cb : StreamingBoardEventCallback Payload St) (st : St) :
  (forall c s, P s -> P (fst (cb c s))) ->
  P st ->
  P (fst (getBoardHistory migrateEvent db boardId afterSerial cb st)).
Proof.
  intros Hcb Hst. unfold getBoardHistory.
  pose proof (stream_invariant (fun hs => P (snd hs))
                (historyChunk afterSerial cb)
                (selectHistoryAfter db boardId afterSerial) (initCursor, st)
                (fun c hs => historyChunk_invariant P afterSerial cb c hs Hcb)
                Hst) as H.
  destruct (streamingBoardEventsQuery _ _ _ _) as [[h st'] [u|e]]; exact H.
Qed.

Lemma getBoardHistory_ok_rows {St : Type} (db : DB Item Connection Payload)
    (boardId : Id) (afterSerial : Serial)
    (cb : StreamingBoardEventCallback Payload St) (st : St) :
  snd (getBoardHistory migrateEvent db boardId afterSerial cb st) = Ok tt ->
  forallb hasNonEmptyEvents (selectHistoryAfter db boardId afterSerial) = true.
Proof.
  unfold getBoardHistory. intros H.
  apply (history_stream_ok afterSerial cb _ initCursor st).
  destruct (streamingBoardEventsQuery _ _ _ _) as [[h st'] [[]|e]];
    [reflexivity|discriminate H].
Qed.

(** *** fetchBoard *)

(** C7: an access-policy event met while loading a board yields the board
    it was applied to with the serial set to the event's serial, whether
    or not a rebuild is under way; name, items, connections and access
    policy are those of the input board. *)
Theorem setAccessPolicy_only_moves_serial (rebuildingSnapshot : bool)
    (snapshot b : Board Item Connection) (e : BoardHistoryEntry Payload)
    (s : Serial) (st : LoaderState Item Connection) :
  e_action e = "board.setAccessPolicy" ->
  e_serial e = Some s ->
  applyEntry boardReducer rebuildingSnapshot b e = Ok (withSerial b s)
  /\ serial (withSerial b s) = s
  /\ id (withSerial b s) = id b
  /\ name (withSerial b s) = name b
  /\ items (withSerial b s) = items b
  /\ connections (withSerial b s) = connections b
  /\ accessPolicy (withSerial b s) = accessPolicy b
  /\ l_board (fst (updateBoardWithEventChunk boardReducer snapshot [e] st))
     = withSerial (l_board st) s.
Proof.
  intros Ha Hs.
  assert (H : forall r b', applyEntry boardReducer r b' e = Ok (withSerial b' s)).
  { intros r b'. unfold applyEntry. rewrite bool_decide_eq_true_2 by exact Ha.
    rewrite Hs. reflexivity. }
  repeat split; try reflexivity; [apply H|].
  unfold updateBoardWithEventChunk. cbn [reduceChunk]. rewrite H. reflexivity.
Qed.

(** C4, as the code has it: when the replay from the snapshot goes
    through, the board it leaves is the fold of the surviving entries (those
    with a serial above the snapshot's) with strictOnSerials set to TRUE:
    outside a rebuild every entry other than an access-policy event goes
    through the reducer with [inplace] and [strictOnSerials] both true;
    only a rebuild passes false. *)
Theorem snapshot_replay_is_strict (db : DB Item Connection Payload)
    (boardId : Id) (snapshot : Board Item Connection)
    (st : LoaderState Item Connection) :
  getBoardHistory migrateEvent db boardId (serial snapshot)
    (updateBoardWithEventChunk boardReducer snapshot) (initLoader snapshot)
  = (st, Ok tt) ->
  foldEntries boardReducer true snapshot
    (List.filter (serialAfter (serial snapshot))
       (concat (streamed migrateEvent
                  (selectHistoryAfter db boardId (serial snapshot)))))
  = Ok (l_board st)
  /\ (forall (rebuildingSnapshot : bool) (b : Board Item Connection)
             (e : BoardHistoryEntry Payload),
         e_action e <> "board.setAccessPolicy" ->
         applyEntry boardReducer rebuildingSnapshot b e
         = match boardReducer b e
                   {| inplace := true;
                      strictOnSerials := negb rebuildingSnapshot |} with
           | Ok r => Ok (fst r)
           | Throw err => Throw err
           end).
Proof.
  intros H. split.
  - assert (Hok : snd (getBoardHistory migrateEvent db boardId (serial snapshot)
                         (updateBoardWithEventChunk boardReducer snapshot)
                         (initLoader snapshot)) = Ok tt)
      by (rewrite H; reflexivity).
    pose proof (getBoardHistory_ok_rows _ _ _ _ _ Hok) as Hw.
    destruct (getBoardHistory_feed db boardId (serial snapshot)
                (updateBoardWithEventChunk boardReducer snapshot)
                (initLoader snapshot) Hw) as (Hst & Hfed & _).
    specialize (Hfed Hok). rewrite H in Hst; simpl in Hst.
    destruct (feed _ _ _) as [st' r] eqn:Ef. simpl in Hst, Hfed. subst st' r.
    destruct (feed_update_ok _ _ _ _ Ef) as (Hb & _).
    rewrite concat_delivered in Hb. exact Hb.
  - intros r b e Ha. unfold applyEntry.
    rewrite bool_decide_eq_false_2 by exact Ha. reflexivity.
Qed.

Lemma normal_replay_state (db : DB Item Connection Payload) (boardId : Id)
    (snapshot : Board Item Connection) (st : LoaderState Item Connection) :
  getBoardHistory migrateEvent db boardId (serial snapshot)
    (updateBoardWithEventChunk boardReducer snapshot) (initLoader snapshot)
  = (st, Ok tt) ->
  l_rebuildingSnapshot st = false
  /\ l_historyEventCount st
     = length (List.filter (serialAfter (serial snapshot))
                 (concat (streamed migrateEvent
                            (selectHistoryAfter db boardId (serial snapshot))))).
Proof.
  intros H. split.
  - pose proof (getBoardHistory_invariant
                  (fun s => l_rebuildingSnapshot s = false)
                  db boardId (serial snapshot)
                  (updateBoardWithEventChunk boardReducer snapshot)
                  (initLoader snapshot)) as Hinv.
    rewrite H in Hinv. apply Hinv; [|reflexivity].
    intros c s0 Hs0. rewrite update_keeps_flag. exact Hs0.
  - assert (Hok : snd (getBoardHistory migrateEvent db boardId (serial snapshot)
                         (updateBoardWithEventChunk boardReducer snapshot)
                         (initLoader snapshot)) = Ok tt)
      by (rewrite H; reflexivity).
    pose proof (getBoardHistory_ok_rows _ _ _ _ _ Hok) as Hw.
    destruct (getBoardHistory_feed db boardId (serial snapshot)
                (updateBoardWithEventChunk boardReducer snapshot)
                (initLoader snapshot) Hw) as (Hst & Hfed & _).
    specialize (Hfed Hok). rewrite H in Hst; simpl in Hst.
    destruct (feed _ _ _) as [st' r] eqn:Ef. simpl in Hst, Hfed. subst st' r.
    destruct (feed_update_ok _ _ _ _ Ef) as (_ & Hc & _).
    rewrite concat_delivered in Hc. exact Hc.
Qed.

Lemma rebuild_state (db : DB Item Connection Payload) (boardId : Id)
    (snapshot : Board Item Connection) (st1 : LoaderState Item Connection) :
  l_rebuildingSnapshot
    (fst (getFullBoardHistory migrateEvent db boardId
            (updateBoardWithEventChunk boardReducer snapshot)
            (rebootLoader snapshot st1))) = true.
Proof.
  unfold getFullBoardHistory.
  apply (stream_invariant (fun s => l_rebuildingSnapshot s = true));
    [|reflexivity].
  intros c s0 Hs0. rewrite update_keeps_flag. exact Hs0.
Qed.

Lemma fetchBoard_statements (db : DB Item Connection Payload) (boardId : Id)
    (snapshot : Board Item Connection)
    (r : BoardAndAccessTokens Item Connection)
    (log : list (Query Item Connection)) :
  selectBoard db boardId = Some snapshot ->
  fetchBoard boardReducer migrateEvent migrateBoard db boardId
  = (Ok (Some r), log) ->
  let replayed :=
    length (List.filter (serialAfter (serial snapshot))
              (concat (streamed migrateEvent
                         (selectHistoryAfter db boardId (serial snapshot))))) in
  let rebuilt :=
    negb (isOk (snd (getBoardHistory migrateEvent db boardId (serial snapshot)
                       (updateBoardWithEventChunk boardReducer snapshot)
                       (initLoader snapshot)))) in
  log = QSelectBoard boardId
        :: QHistoryAfter boardId (serial snapshot)
        :: (if rebuilt then [QFullHistory boardId] else [])
        ++ (if (1000 <? replayed)%nat || rebuilt
            then [QSaveSnapshot
                    (mkSnapshot migrateBoard (ba_board r) (serial (ba_board r)))]
            else [])
        ++ [QSelectTokens boardId].
Proof.
  intros Hsel Hfetch replayed rebuilt; subst replayed rebuilt.
  unfold fetchBoard in Hfetch. rewrite Hsel in Hfetch.
  unfold replayHistory in Hfetch.
  destruct (getBoardHistory migrateEvent db boardId (serial snapshot)
              (updateBoardWithEventChunk boardReducer snapshot)
              (initLoader snapshot)) as [st1 [[]|e1]] eqn:E1.
  - destruct (normal_replay_state _ _ _ _ E1) as [Hflag Hcount].
    rewrite Hflag, Hcount in Hfetch.
    injection Hfetch as <- <-. reflexivity.
  - pose proof (rebuild_state db boardId snapshot st1) as Hflag.
    destruct (getFullBoardHistory migrateEvent db boardId
                (updateBoardWithEventChunk boardReducer snapshot)
                (rebootLoader snapshot st1)) as [st3 [[]|e3]];
      [|discriminate Hfetch].
    simpl in Hflag. rewrite Hflag in Hfetch.
    rewrite !orb_true_r in Hfetch |- *.
    injection Hfetch as <- <-. reflexivity.
Qed.

Lemma filter_saved_rows (b : Board Item Connection) (boardId : Id)
    (rows : list (BoardRow Item Connection)) :
  List.filter (fun r => bool_decide (row_id r = boardId))
    (map (fun r => if bool_decide (row_id r = id b)
                   then {| row_id := row_id r; row_name := name b;
                           row_content := b; public_read := public_read r;
                           public_write := public_write r |}
                   else r) rows)
  = map (fun r => if bool_decide (row_id r = id b)
                  then {| row_id := row_id r; row_name := name b;
                          row_content := b; public_read := public_read r;
                          public_write := public_write r |}
                  else r)
        (List.filter (fun r => bool_decide (row_id r = boardId)) rows).
Proof.
  induction rows as [|r rest IH]; [reflexivity|].
  cbn [map List.filter].
  assert (Hid : row_id (if bool_decide (row_id r = id b)
                        then {| row_id := row_id r; row_name := name b;
                                row_content := b; public_read := public_read r;
                                public_write := public_write r |}
                        else r) = row_id r).
  { destruct (bool_decide (row_id r = id b)); reflexivity. }
  rewrite Hid.
  destruct (bool_decide (row_id r = boardId)); cbn [map]; rewrite IH; reflexivity.
Qed.

Lemma selectBoard_after_save (db : DB Item Connection Payload)
    (b snapshot : Board Item Connection) (boardId : Id) :
  id b = boardId ->
  selectBoard db boardId = Some snapshot ->
  selectBoard (saveBoardSnapshot b db) boardId
  = Some (withAccessPolicy b (accessPolicy snapshot)).
Proof.
  intros Hid Hsel. unfold selectBoard in *.
  unfold saveBoardSnapshot; cbn [board board_access].
  rewrite filter_saved_rows.
  destruct (List.filter (fun r => bool_decide (row_id r = boardId)) (board db))
    as [|r rest] eqn:Hrows; [discriminate Hsel|].
  assert (Hr : row_id r = boardId).
  { assert (Hin : In r (List.filter (fun r => bool_decide (row_id r = boardId))
                          (board db))) by (rewrite Hrows; left; reflexivity).
    apply List.filter_In in Hin as [_ Hin].
    apply bool_decide_eq_true_1 in Hin. exact Hin. }
  cbn [map]. rewrite bool_decide_eq_true_2 by congruence.
  cbn [row_id row_content public_read public_write].
  injection Hsel as <-. reflexivity.
Qed.

Lemma foldl_load_statements (db : DB Item Connection Payload) (boardId : Id)
    (s : Serial) (rebuilt save : bool) (b : Board Item Connection) :
  foldl applyQuery db
    (QSelectBoard boardId
     :: QHistoryAfter boardId s
     :: (if rebuilt then [QFullHistory boardId] else [])
     ++ (if save then [QSaveSnapshot b] else [])
     ++ [QSelectTokens boardId])
  = if save then saveBoardSnapshot b db else db.
Proof. destruct rebuilt, save; reflexivity. Qed.

(** C8: a load that returns a board sends, in this order, the snapshot
    query, the history query (followed by the full-history query when the
    first replay was rejected), a snapshot update exactly when more than
    1000 events were replayed or a rebuild took place, and the token query.
    The snapshot written is built from the returned board at the returned
    board's serial. In the store the load leaves behind, when the update was
    sent, every row of [board] with the snapshot's id holds the snapshot's
    name and the snapshot as content, the other rows and tables being as
    they were, so that, the snapshot's id being the board's, the next
    snapshot query reads this snapshot back (under the access policy the
    load had read); and when no update was sent the store is the one the
    load started from. *)
Theorem snapshot_saved_iff (db : DB Item Connection Payload) (boardId : Id)
    (snapshot : Board Item Connection)
    (r : BoardAndAccessTokens Item Connection)
    (log : list (Query Item Connection)) :
  selectBoard db boardId = Some snapshot ->
  fetchBoard boardReducer migrateEvent migrateBoard db boardId
  = (Ok (Some r), log) ->
  let replayed :=
    length (List.filter (serialAfter (serial snapshot))
              (concat (streamed migrateEvent
                         (selectHistoryAfter db boardId (serial snapshot))))) in
  let rebuilt :=
    negb (isOk (snd (getBoardHistory migrateEvent db boardId (serial snapshot)
                       (updateBoardWithEventChunk boardReducer snapshot)
                       (initLoader snapshot)))) in
  let saved := mkSnapshot migrateBoard (ba_board r) (serial (ba_board r)) in
  let db' := foldl applyQuery db log in
  log = QSelectBoard boardId
        :: QHistoryAfter boardId (serial snapshot)
        :: (if rebuilt then [QFullHistory boardId] else [])
        ++ (if (1000 <? replayed)%nat || rebuilt
            then [QSaveSnapshot
                    (mkSnapshot migrateBoard (ba_board r) (serial (ba_board r)))]
            else [])
        ++ [QSelectTokens boardId]
  /\ if (1000 <? replayed)%nat || rebuilt
     then board db'
          = map (fun row =>
                   if bool_decide (row_id row = id saved)
                   then {| row_id := row_id row; row_name := name saved;
                           row_content := saved;
                           public_read := public_read row;
                           public_write := public_write row |}
                   else row)
                (board db)
          /\ board_access db' = board_access db
          /\ board_event db' = board_event db
          /\ board_api_token db' = board_api_token db
          /\ (id saved = boardId ->
              selectBoard db' boardId
              = Some (withAccessPolicy saved (accessPolicy snapshot)))
     else db' = db.
Proof.
  intros Hsel Hfetch replayed rebuilt saved db'.
  pose proof (fetchBoard_statements db boardId snapshot r log Hsel Hfetch)
    as Hlog.
  split; [exact Hlog|].
  subst db'. rewrite Hlog, foldl_load_statements.
  subst replayed rebuilt saved.
  destruct ((1000 <? _)%nat || _); [|reflexivity].
  do 4 (split; [reflexivity|]).
  intros Hid. apply selectBoard_after_save; assumption.
Qed.


End Loader.

Section Bundles.

Context {Item Connection Payload : Type}.

(** C9, as the code has it: the append never looks at what the store
    holds. A bundle whose first entry carries no [firstSerial] and whose
    first and last entries carry serials is inserted as one row tagged
    with these two serials, whatever the highest persisted serial is; and
    whether the append throws is the same for every store. *)
Theorem storeEventHistoryBundle_ignores_tail
    (db : DB Item Connection Payload) (boardId : Id)
    (evs : list (BoardHistoryEntry Payload)) (savedAt : Z)
    (e0 : BoardHistoryEntry Payload) (f l : Serial) :
  head evs = Some e0 ->
  e_firstSerial e0 = None ->
  e_serial e0 = Some f ->
  last evs ≫= e_serial = Some l ->
  storeEventHistoryBundle db boardId evs savedAt
  = (insertBoardEvent
       {| ev_board_id := boardId; first_serial := f; last_serial := l;
          events := Some evs; saved_at := savedAt |} db, Ok tt)
  /\ forall db' : DB Item Connection Payload,
       snd (storeEventHistoryBundle db' boardId evs savedAt) = Ok tt.
Proof.
  intros Hh Hf Hs Hl.
  assert (H : forall d : DB Item Connection Payload,
             storeEventHistoryBundle d boardId evs savedAt
             = (insertBoardEvent
                  {| ev_board_id := boardId; first_serial := f; last_serial := l;
                     events := Some evs; saved_at := savedAt |} d, Ok tt)).
  { intros d. unfold storeEventHistoryBundle.
    destruct evs as [|x rest]; [discriminate Hh|].
    injection Hh as ->. rewrite Hf, Hs, Hl. reflexivity. }
  split; [apply H|]. intros db'. rewrite H. reflexivity.
Qed.

(** C10: with an empty list of entries the append does nothing: the
    store is returned as it was, no row is inserted, nothing is thrown. *)
Theorem storeEventHistoryBundle_empty (db : DB Item Connection Payload)
    (boardId : Id) (savedAt : Z) :
  storeEventHistoryBundle db boardId [] savedAt = (db, Ok tt)
  /\ board_event (fst (storeEventHistoryBundle db boardId [] savedAt))
     = board_event db.
Proof. split; reflexivity. Qed.

End Bundles.

(** *** The definitions on concrete stores *)

(** C6 as stated fails beyond the safe integers: from the start serial
    2^53 an entry that carries 2^53 again is judged continuous, though the
    pair differs by 0: 2^53 + 1 is no double, and the sum the code compares
    with is 2^53. *)
Lemma continuity_accepts_repeated_serial :
  verifyEventArrayContinuity "b1" twoTo53 [demoEntry "item.add" twoTo53] = true
  /\ e_serial (demoEntry "item.add" twoTo53) = Some twoTo53
  /\ ~ follows (Some twoTo53) (e_serial (demoEntry "item.add" twoTo53)).
Proof.
  split; [reflexivity|]. split; [reflexivity|].
  intros (x & Hx & Hb). injection Hx as <-.
  cbn [e_serial demoEntry] in Hb. injection Hb as Hb.
  unfold twoTo53 in Hb. lia.
Qed.

Lemma verifyEventArrayContinuity_adjacent_witness :
  isSafeInteger 0
  /\ safeSerials (map (demoEntry "item.add") [1; 2; 3])
  /\ verifyEventArrayContinuity "b1" 0 (map (demoEntry "item.add") [1; 2; 3])
     = true
  /\ forall (i : nat) (e : BoardHistoryEntry unit),
       map (demoEntry "item.add") [1; 2; 3] !! i = Some e ->
       e_serial e = Some (0 + Z.of_nat i + 1).
Proof.
  assert (H0 : isSafeInteger 0) by (split; reflexivity).
  assert (Hs : safeSerials (map (demoEntry "item.add") [1; 2; 3])).
  { intros e s He Hs. cbn [map In] in He.
    destruct He as [<-|[<-|[<-|[]]]]; injection Hs as <-; split; reflexivity. }
  split; [exact H0|]. split; [exact Hs|]. split; [reflexivity|].
  exact (proj1 (proj2 (verifyEventArrayContinuity_adjacent "b1" 0 _ H0 Hs))
           eq_refl).
Defined.

Lemma setAccessPolicy_only_moves_serial_witness :
  e_action (demoEntry "board.setAccessPolicy" 7) = "board.setAccessPolicy"
  /\ e_serial (demoEntry "board.setAccessPolicy" 7) = Some 7
  /\ applyEntry specReducer false (demoBoard 4)
       (demoEntry "board.setAccessPolicy" 7)
     = Ok (withSerial (demoBoard 4) 7).
Proof.
  split; [reflexivity|]. split; [reflexivity|].
  exact (proj1 (setAccessPolicy_only_moves_serial specReducer false
                  (demoBoard 0) (demoBoard 4)
                  (demoEntry "board.setAccessPolicy" 7) 7
                  (initLoader (demoBoard 0)) eq_refl eq_refl)).
Defined.

(** C4 as stated fails: on [gapDB] the fold with strictOnSerials false
    accepts the surviving entries 1 and 3 and ends at serial 3, and the
    streamed history itself is accepted (it starts at serial 1); yet the
    replay from the snapshot is rejected by the reducer at serial 3, which
    it can only be under strictOnSerials true. *)
Lemma snapshot_replay_not_lenient :
  let evs := concat (streamed noMigrateEvent (selectHistoryAfter gapDB "b1" 0)) in
  foldEntries specReducer false (demoBoard 0) (List.filter (serialAfter 0) evs)
  = Ok (withSerial (demoBoard 0) 3)
  /\ historyAccepted 0 evs
  /\ getBoardHistory noMigrateEvent gapDB "b1" 0
       (updateBoardWithEventChunk specReducer (demoBoard 0))
       (initLoader (demoBoard 0))
     = (gapRejected, Throw (ReducerThrew "serial skip"))
  /\ applyEntry specReducer false (demoBoard 1) (demoEntry "item.move" 3)
     <> foldEntry specReducer false (demoBoard 1) (demoEntry "item.move" 3).
Proof.
  repeat split.
  - right; right. reflexivity.
  - vm_compute. discriminate.
Qed.

Lemma snapshot_replay_is_strict_witness :
  let st := fst (getBoardHistory noMigrateEvent tailDB "b1" 0
                   (updateBoardWithEventChunk specReducer (demoBoard 0))
                   (initLoader (demoBoard 0))) in
  getBoardHistory noMigrateEvent tailDB "b1" 0
    (updateBoardWithEventChunk specReducer (demoBoard 0))
    (initLoader (demoBoard 0)) = (st, Ok tt)
  /\ foldEntries specReducer true (demoBoard 0)
       (List.filter (serialAfter 0)
          (concat (streamed noMigrateEvent (selectHistoryAfter tailDB "b1" 0))))
     = Ok (l_board st).
Proof.
  split; [reflexivity|].
  exact (proj1 (snapshot_replay_is_strict specReducer noMigrateEvent tailDB "b1"
                  (demoBoard 0) _ eq_refl)).
Defined.

(** C5 as stated fails in both directions: the log of [tailDB] read from
    serial 0 starts at serial 1, so it is accepted, but with a callback that
    throws [getBoardHistory] does not complete; and the log of [farDB] read
    from serial 2^53 + 2 starts at 2^53 + 4, which none of the three
    conditions accepts, but [getBoardHistory] completes, the successor the
    code computes for 2^53 + 2 being the double 2^53 + 4. *)
Lemma callback_failure_rejects_accepted_history :
  (historyAccepted 0
     (concat (streamed noMigrateEvent (selectHistoryAfter tailDB "b1" 0)))
   /\ snd (getBoardHistory noMigrateEvent tailDB "b1" 0 throwingCallback tt)
      = Throw (ReducerThrew "callback"))
  /\ (~ historyAccepted (twoTo53 + 2)
          (concat (streamed noMigrateEvent
                     (selectHistoryAfter farDB "b1" (twoTo53 + 2))))
      /\ snd (getBoardHistory noMigrateEvent farDB "b1" (twoTo53 + 2)
                acceptingCallback tt)
         = Ok tt).
Proof.
  split; split.
  - right; right. reflexivity.
  - reflexivity.
  - intros [[H _]|[H|H]]; vm_compute in H; discriminate H.
  - reflexivity.
Qed.

Lemma getBoardHistory_accepts_witness :
  0 <= 5 < twoTo53
  /\ (snd (getBoardHistory noMigrateEvent tailDB "b1" 5 acceptingCallback tt) = Ok tt
      <-> forallb hasNonEmptyEvents (selectHistoryAfter tailDB "b1" 5) = true
          /\ snd (feed acceptingCallback
                    (delivered noMigrateEvent 5 (selectHistoryAfter tailDB "b1" 5)) tt)
             = Ok tt
          /\ historyAccepted 5
               (concat (streamed noMigrateEvent (selectHistoryAfter tailDB "b1" 5)))).
Proof.
  assert (H : 0 <= 5 < twoTo53) by (unfold twoTo53; lia).
  split; [exact H|].
  exact (proj1 (getBoardHistory_accepts (Item := unit) (Connection := unit)
                  noMigrateEvent tailDB "b1" 5 acceptingCallback tt H)).
Defined.

Lemma snapshot_saved_iff_witness :
  selectBoard gapDB "b1" = Some (demoBoard 0)
  /\ fetchBoard specReducer noMigrateEvent noMigrateBoard gapDB "b1"
     = (Ok (Some gapRebuilt), gapLog)
  /\ In (QSaveSnapshot (mkSnapshot noMigrateBoard (ba_board gapRebuilt)
                          (serial (ba_board gapRebuilt)))) gapLog
  /\ board (foldl applyQuery gapDB gapLog)
     = [ {| row_id := "b1"; row_name := "demo";
            row_content := ba_board gapRebuilt;
            public_read := true; public_write := true |} ]
  /\ selectBoard (foldl applyQuery gapDB gapLog) "b1"
     = Some (ba_board gapRebuilt).
Proof.
  split; [reflexivity|]. split; [reflexivity|].
  destruct (snapshot_saved_iff specReducer noMigrateEvent noMigrateBoard gapDB
              "b1" (demoBoard 0) gapRebuilt gapLog eq_refl eq_refl)
    as [Hlog Hstore].
  split; [rewrite Hlog; vm_compute; tauto|].
  vm_compute in Hstore. destruct Hstore as (Hboard & _ & _ & _ & Hread).
  split; [exact Hboard|exact (Hread eq_refl)].
Defined.


(** C9 as stated fails: the log of [tailDB] ends at serial 5; a bundle
    that starts at serial 8 is appended all the same. *)
Lemma append_after_gap_succeeds :
  storedTail tailDB "b1" = Some 5
  /\ e_serial (demoEntry "item.add" 8) <> Some (5 + 1)
  /\ snd (storeEventHistoryBundle tailDB "b1" [demoEntry "item.add" 8] 0) = Ok tt
  /\ storedTail (fst (storeEventHistoryBundle tailDB "b1"
                        [demoEntry "item.add" 8] 0)) "b1" = Some 8.
Proof. repeat split. discriminate. Qed.

Lemma storeEventHistoryBundle_ignores_tail_witness :
  head [demoEntry "item.add" 8] = Some (demoEntry "item.add" 8)
  /\ e_firstSerial (demoEntry "item.add" 8) = None
  /\ e_serial (demoEntry "item.add" 8) = Some 8
  /\ last [demoEntry "item.add" 8] ≫= e_serial = Some 8
  /\ storeEventHistoryBundle tailDB "b1" [demoEntry "item.add" 8] 0
     = (insertBoardEvent
          {| ev_board_id := "b1"; first_serial := 8; last_serial := 8;
             events := Some [demoEntry "item.add" 8]; saved_at := 0 |} tailDB,
        Ok tt).
Proof.
  repeat (split; [reflexivity|]).
  exact (proj1 (storeEventHistoryBundle_ignores_tail tailDB "b1"
                  [demoEntry "item.add" 8] 0 (demoEntry "item.add" 8) 8 8
                  eq_refl eq_refl eq_refl eq_refl)).
Defined.

End BoardStoreFacts.

(* ===================================================================== *)
(** ** Properties of the rest of the board store *)
(* ===================================================================== *)

Module BoardAdminFacts.
Import BoardStore BoardAdmin BoardStoreFacts.

Section Order.

Context {Payload : Type}.

Lemma insert_front (r : BoardEventRow Payload) (rows : list (BoardEventRow Payload)) :
  (forall r', In r' rows -> last_serial r < last_serial r') ->
  insertByLastSerial r rows = r :: rows.
Proof.
  destruct rows as [|a rest]; intros H; simpl; [reflexivity|].
  destruct (Z.ltb_spec (last_serial r) (last_serial a)) as [_|Hge]; [reflexivity|].
  specialize (H a (or_introl eq_refl)). lia.
Qed.

Lemma insert_back (r : BoardEventRow Payload) (rows : list (BoardEventRow Payload)) :
  (forall r', In r' rows -> last_serial r' <= last_serial r) ->
  insertByLastSerial r rows = rows ++ [r].
Proof.
  induction rows as [|a rest IH]; intros H; simpl; [reflexivity|].
  destruct (Z.ltb_spec (last_serial r) (last_serial a)) as [Hlt|_].
  - specialize (H a (or_introl eq_refl)). lia.
  - rewrite IH; [reflexivity|]. intros r' Hr'. apply H. right; exact Hr'.
Qed.

Lemma insert_perm (r : BoardEventRow Payload) (rows : list (BoardEventRow Payload)) :
  insertByLastSerial r rows ≡ₚ r :: rows.
Proof.
  induction rows as [|a rest IH]; simpl; [reflexivity|].
  destruct (last_serial r <? last_serial a); [reflexivity|].
  rewrite IH. apply Permutation_swap.
Qed.

Lemma insert_In (x r : BoardEventRow Payload) (rows : list (BoardEventRow Payload)) :
  In x (insertByLastSerial r rows) <-> x = r \/ In x rows.
Proof.
  rewrite <- !list_elem_of_In, insert_perm, elem_of_cons. reflexivity.
Qed.

Lemma insert_ascending (r : BoardEventRow Payload)
    (rows : list (BoardEventRow Payload)) :
  ascending rows -> ascending (insertByLastSerial r rows).
Proof.
  induction rows as [|a rest IH]; intros H; simpl.
  - split; [intros r' []|exact I].
  - destruct H as [Ha Hrest].
    destruct (Z.ltb_spec (last_serial r) (last_serial a)) as [Hlt|Hge].
    + split; [|split; assumption].
      intros r' [<-|Hr']; [lia|]. specialize (Ha r' Hr'). lia.
    + split; [|apply IH; exact Hrest].
      intros r' Hr'. apply insert_In in Hr' as [->|Hr']; [exact Hge|auto].
Qed.

Lemma insert_filter (p : BoardEventRow Payload -> bool) (r : BoardEventRow Payload)
    (rows : list (BoardEventRow Payload)) :
  ascending rows ->
  List.filter p (insertByLastSerial r rows)
  = if p r then insertByLastSerial r (List.filter p rows) else List.filter p rows.
Proof.
  induction rows as [|a rest IH]; intros H.
  - simpl. destruct (p r); reflexivity.
  - destruct H as [Ha Hrest]. cbn [insertByLastSerial].
    destruct (Z.ltb_spec (last_serial r) (last_serial a)) as [Hlt|Hge].
    + cbn [List.filter]. destruct (p r) eqn:Er; [|reflexivity].
      rewrite insert_front; [reflexivity|].
      intros r' Hr'.
      assert (Hin : In r' (a :: rest)).
      { change (In r' (List.filter p (a :: rest))) in Hr'.
        apply List.filter_In in Hr'. tauto. }
      destruct Hin as [<-|Hin]; [exact Hlt|]. specialize (Ha r' Hin). lia.
    + cbn [List.filter]. rewrite (IH Hrest).
      destruct (p a) eqn:Ea, (p r) eqn:Er; try reflexivity.
      cbn [insertByLastSerial].
      destruct (Z.ltb_spec (last_serial r) (last_serial a)) as [Hlt|_]; [lia|].
      reflexivity.
Qed.

Lemma sortInto_ascending (rows acc : list (BoardEventRow Payload)) :
  ascending acc ->
  ascending (foldl (fun acc r => insertByLastSerial r acc) acc rows).
Proof.
  revert acc; induction rows as [|r rest IH]; intros acc H; simpl; [exact H|].
  apply IH, insert_ascending, H.
Qed.

Lemma sortInto_perm (rows acc : list (BoardEventRow Payload)) :
  foldl (fun acc r => insertByLastSerial r acc) acc rows ≡ₚ acc ++ rows.
Proof.
  revert acc; induction rows as [|r rest IH]; intros acc; simpl.
  - rewrite app_nil_r. reflexivity.
  - rewrite IH, insert_perm. simpl. apply Permutation_middle.
Qed.

Lemma sortInto_filter (p : BoardEventRow Payload -> bool)
    (rows acc : list (BoardEventRow Payload)) :
  ascending acc ->
  List.filter p (foldl (fun acc r => insertByLastSerial r acc) acc rows)
  = foldl (fun acc r => insertByLastSerial r acc) (List.filter p acc)
      (List.filter p rows).
Proof.
  revert acc; induction rows as [|r rest IH]; intros acc H; simpl; [reflexivity|].
  rewrite IH by (apply insert_ascending, H).
  rewrite insert_filter by exact H.
  destruct (p r); reflexivity.
Qed.

Lemma orderByLastSerial_ascending (rows : list (BoardEventRow Payload)) :
  ascending (orderByLastSerial rows).
Proof. apply sortInto_ascending. exact I. Qed.

Lemma orderByLastSerial_perm (rows : list (BoardEventRow Payload)) :
  orderByLastSerial rows ≡ₚ rows.
Proof. unfold orderByLastSerial. rewrite sortInto_perm. reflexivity. Qed.

Lemma orderByLastSerial_filter (p : BoardEventRow Payload -> bool)
    (rows : list (BoardEventRow Payload)) :
  List.filter p (orderByLastSerial rows) = orderByLastSerial (List.filter p rows).
Proof. unfold orderByLastSerial. rewrite sortInto_filter by exact I. reflexivity. Qed.

Lemma orderByLastSerial_snoc (rows : list (BoardEventRow Payload))
    (r : BoardEventRow Payload) :
  (forall r', In r' rows -> last_serial r' <= last_serial r) ->
  orderByLastSerial (rows ++ [r]) = orderByLastSerial rows ++ [r].
Proof.
  intros H. unfold orderByLastSerial. rewrite foldl_app. simpl.
  apply insert_back. intros r' Hr'. apply H.
  apply list_elem_of_In. rewrite <- (orderByLastSerial_perm rows).
  apply list_elem_of_In. exact Hr'.
Qed.

Lemma filter_filter_and {A : Type} (p q : A -> bool) (l : list A) :
  List.filter p (List.filter q l) = List.filter (fun x => q x && p x) l.
Proof.
  induction l as [|x l IH]; simpl; [reflexivity|].
  destruct (q x); simpl; [destruct (p x)|]; rewrite ?IH; reflexivity.
Qed.

End Order.

Section Reads.

Context {Item Connection Payload : Type}.
Variable migrateEvent : BoardHistoryEntry Payload -> BoardHistoryEntry Payload.

Lemma ascending_split (a : Serial) (rows : list (BoardEventRow Payload)) :
  ascending rows ->
  exists older,
    rows = older ++ List.filter (fun r => a <=? last_serial r) rows
    /\ forall r, In r older -> last_serial r < a.
Proof.
  induction rows as [|r rest IH]; intros H.
  - exists []. split; [reflexivity|]. intros r [].
  - destruct H as [Hr Hrest]. cbn [List.filter].
    destruct (Z.leb_spec a (last_serial r)) as [Hle|Hlt].
    + exists []. split; [|intros r' []]. simpl. f_equal.
      symmetry. apply forallb_filter_id. apply forallb_forall.
      intros r' Hr'. apply Z.leb_le. specialize (Hr r' Hr'). lia.
    + destruct (IH Hrest) as (older & Heq & Hold).
      exists (r :: older). split; [simpl; f_equal; exact Heq|].
      intros r' [<-|Hr']; [exact Hlt|auto].
Qed.

(** X1: the full-history query returns exactly the stored bundles of the
    board (each as often as it is stored), in ascending order of
    [last_serial]. *)
Theorem full_history_sorted (db : DB Item Connection Payload) (boardId : Id) :
  ascending (selectFullHistory db boardId)
  /\ selectFullHistory db boardId
     ≡ₚ List.filter (fun r => bool_decide (ev_board_id r = boardId))
                    (board_event db).
Proof.
  split.
  - apply orderByLastSerial_ascending.
  - apply orderByLastSerial_perm.
Qed.

(** X2: the bundles streamed after a serial are a tail of the board's full
    history: the full history is some bundles that all end before the
    requested serial, followed by exactly what the history query from that
    serial returns. *)
Theorem history_after_is_tail (db : DB Item Connection Payload) (boardId : Id)
    (afterSerial : Serial) :
  selectHistoryAfter db boardId afterSerial
  = List.filter (fun r => afterSerial <=? last_serial r)
                (selectFullHistory db boardId)
  /\ exists older,
       selectFullHistory db boardId
       = older ++ selectHistoryAfter db boardId afterSerial
       /\ forall r, In r older -> last_serial r < afterSerial.
Proof.
  assert (Heq : selectHistoryAfter db boardId afterSerial
                = List.filter (fun r => afterSerial <=? last_serial r)
                              (selectFullHistory db boardId)).
  { unfold selectHistoryAfter, selectFullHistory.
    rewrite orderByLastSerial_filter, filter_filter_and. reflexivity. }
  split; [exact Heq|]. rewrite Heq.
  apply ascending_split, orderByLastSerial_ascending.
Qed.

Lemma filter_snoc {A : Type} (p : A -> bool) (l : list A) (x : A) :
  List.filter p (l ++ [x])
  = List.filter p l ++ (if p x then [x] else []).
Proof. rewrite List.filter_app. simpl. destruct (p x); reflexivity. Qed.

Lemma streamed_app (rows1 rows2 : list (BoardEventRow Payload)) :
  streamed migrateEvent (rows1 ++ rows2)
  = streamed migrateEvent rows1 ++ streamed migrateEvent rows2.
Proof.
  induction rows1 as [|r rows1 IH]; [reflexivity|].
  rewrite <- app_comm_cons, !streamed_cons, IH.
  destruct (events r); reflexivity.
Qed.

(** X3: append, then read. When a non-empty bundle is appended whose last
    serial is not below the [last_serial] of any bundle stored for the
    board, the board's full history afterwards is the history before
    followed by the new bundle, tagged with the serials of its first and
    last entry, so the stream then ends with the appended events; the
    history of every other board is what it was. *)
Theorem append_then_read (db db' : DB Item Connection Payload) (boardId : Id)
    (e0 : BoardHistoryEntry Payload) (evs : list (BoardHistoryEntry Payload))
    (savedAt : Z) (l : Serial) :
  storeEventHistoryBundle db boardId (e0 :: evs) savedAt = (db', Ok tt) ->
  last (e0 :: evs) ≫= e_serial = Some l ->
  (forall r, In r (selectFullHistory db boardId) -> last_serial r <= l) ->
  (exists f,
      e_serial e0 = Some f
      /\ selectFullHistory db' boardId
         = selectFullHistory db boardId
           ++ [ {| ev_board_id := boardId; first_serial := f; last_serial := l;
                   events := Some (e0 :: evs); saved_at := savedAt |} ])
  /\ streamed migrateEvent (selectFullHistory db' boardId)
     = streamed migrateEvent (selectFullHistory db boardId)
       ++ [map migrateEvent (e0 :: evs)]
  /\ forall other, other <> boardId ->
       selectFullHistory db' other = selectFullHistory db other.
Proof.
  intros Hstore Hl Htail.
  unfold storeEventHistoryBundle in Hstore.
  destruct (e_firstSerial e0); [discriminate Hstore|].
  destruct (e_serial e0) as [f|] eqn:Ef; [|discriminate Hstore].
  rewrite Hl in Hstore. simpl in Hstore. injection Hstore as <-.
  set (row := {| ev_board_id := boardId; first_serial := f; last_serial := l;
                 events := Some (e0 :: evs); saved_at := savedAt |}).
  assert (Hfull : selectFullHistory (insertBoardEvent row db) boardId
                  = selectFullHistory db boardId ++ [row]).
  { unfold selectFullHistory, insertBoardEvent; simpl.
    rewrite filter_snoc. simpl.
    rewrite bool_decide_eq_true_2 by reflexivity.
    apply orderByLastSerial_snoc. intros r' Hr'. simpl.
    apply Htail. unfold selectFullHistory.
    apply list_elem_of_In. rewrite orderByLastSerial_perm.
    apply list_elem_of_In. exact Hr'. }
  split; [|split].
  - exists f. split; [reflexivity|exact Hfull].
  - rewrite Hfull, streamed_app. reflexivity.
  - intros other Hother. unfold selectFullHistory, insertBoardEvent; simpl.
    rewrite filter_snoc. simpl.
    rewrite bool_decide_eq_false_2 by (intros E; apply Hother; symmetry; exact E).
    rewrite app_nil_r. reflexivity.
Qed.

Lemma mapThrowing_migrateBundle (rows : list (BoardEventRow Payload))
    (bs : list (BoardHistoryBundle Payload)) :
  mapThrowing (migrateBundle migrateEvent) rows = Some bs ->
  forallb hasEvents rows = true
  /\ map hb_events bs = streamed migrateEvent rows
  /\ map hb_last_serial bs = map last_serial rows
  /\ map hb_board_id bs = map ev_board_id rows.
Proof.
  revert bs; induction rows as [|r rows IH]; intros bs H.
  - injection H as <-. repeat split.
  - cbn [mapThrowing] in H. unfold migrateBundle at 1 in H.
    rewrite streamed_cons. cbn [forallb]. unfold hasEvents at 1.
    destruct (events r) as [evs|]; [|discriminate H].
    destruct (mapThrowing (migrateBundle migrateEvent) rows) as [bs'|];
      [|discriminate H].
    injection H as <-. destruct (IH bs' eq_refl) as (Hw & He & Hl & Hb).
    simpl. rewrite Hw, He, Hl, Hb. repeat split.
Qed.

Lemma mapThrowing_none (rows : list (BoardEventRow Payload)) :
  mapThrowing (migrateBundle migrateEvent) rows = None <->
  forallb hasEvents rows = false.
Proof.
  induction rows as [|r rows IH]; simpl.
  - split; discriminate.
  - unfold migrateBundle at 1, hasEvents at 1.
    destruct (events r) as [evs|]; simpl; [|split; reflexivity].
    destruct (mapThrowing (migrateBundle migrateEvent) rows) as [bs'|].
    + split; [discriminate|]. intros H. apply IH in H. discriminate H.
    + split; [|reflexivity]. intros _. apply IH. reflexivity.
Qed.

(** X4: reading the bundles at once and streaming them agree. When
    [getBoardHistoryBundles] returns, its bundles carry, in the same order,
    exactly the event arrays that [getFullBoardHistory] hands to its
    callback; and it fails exactly when some stored row of the board holds
    no event array, in which case the stream fails as well, whatever the
    callback. *)
Theorem bundles_agree_with_stream (db : DB Item Connection Payload)
    (boardId : Id) :
  (forall bs,
      getBoardHistoryBundles migrateEvent db boardId = Some bs ->
      map hb_events bs = streamed migrateEvent (selectFullHistory db boardId)
      /\ map hb_last_serial bs = map last_serial (selectFullHistory db boardId)
      /\ forall (St : Type) (cb : StreamingBoardEventCallback Payload St) (st : St),
           getFullBoardHistory migrateEvent db boardId cb st
           = feed cb (map hb_events bs) st)
  /\ (getBoardHistoryBundles migrateEvent db boardId = None <->
      forallb hasEvents (selectFullHistory db boardId) = false)
  /\ (getBoardHistoryBundles migrateEvent db boardId = None ->
      forall (St : Type) (cb : StreamingBoardEventCallback Payload St) (st : St),
        snd (getFullBoardHistory migrateEvent db boardId cb st) <> Ok tt).
Proof.
  split; [|split].
  - intros bs H. destruct (mapThrowing_migrateBundle _ _ H) as (Hw & He & Hl & _).
    repeat split; try assumption.
    intros St cb st. unfold getFullBoardHistory.
    rewrite (stream_is_feed migrateEvent cb _ st Hw), He. reflexivity.
  - apply mapThrowing_none.
  - intros H St cb st Hok.
    apply mapThrowing_none in H.
    apply (stream_ok_hasEvents migrateEvent cb _ st) in Hok. congruence.
Qed.

Lemma mapThrowing_filter (p : BoardEventRow Payload -> bool)
    (q : BoardHistoryBundle Payload -> bool)
    (rows : list (BoardEventRow Payload)) (bs : list (BoardHistoryBundle Payload)) :
  (forall r b, migrateBundle migrateEvent r = Some b -> q b = p r) ->
  mapThrowing (migrateBundle migrateEvent) rows = Some bs ->
  mapThrowing (migrateBundle migrateEvent) (List.filter p rows)
  = Some (List.filter q bs).
Proof.
  intros Hpq. revert bs; induction rows as [|r rows IH]; intros bs H.
  - injection H as <-. reflexivity.
  - cbn [mapThrowing] in H.
    destruct (migrateBundle migrateEvent r) as [b|] eqn:Eb; [|discriminate H].
    destruct (mapThrowing (migrateBundle migrateEvent) rows) as [bs'|];
      [|discriminate H].
    injection H as <-. cbn [List.filter]. rewrite (Hpq r b Eb).
    destruct (p r); cbn [mapThrowing]; rewrite ?Eb, (IH bs' eq_refl); reflexivity.
Qed.

(** X5: when all bundles of a board can be read, reading those whose
    [last_serial] lies between two bounds returns the bundles of the full
    read within the bounds, in the same order. *)
Theorem bundles_between (db : DB Item Connection Payload) (boardId : Id)
    (lsMin lsMax : Serial) (bs : list (BoardHistoryBundle Payload)) :
  getBoardHistoryBundles migrateEvent db boardId = Some bs ->
  getBoardHistoryBundlesWithLastSerialsBetween migrateEvent db boardId lsMin lsMax
  = Some (List.filter
            (fun b => (lsMin <=? hb_last_serial b) && (hb_last_serial b <=? lsMax))
            bs).
Proof.
  intros H. unfold getBoardHistoryBundlesWithLastSerialsBetween.
  unfold getBoardHistoryBundles, selectFullHistory in H.
  assert (Hpq : forall r b, migrateBundle migrateEvent r = Some b ->
                 (lsMin <=? hb_last_serial b) && (hb_last_serial b <=? lsMax)
                 = (lsMin <=? last_serial r) && (last_serial r <=? lsMax)).
  { intros r b Hb. unfold migrateBundle in Hb.
    destruct (events r); [|discriminate Hb]. injection Hb as <-. reflexivity. }
  rewrite <- (mapThrowing_filter _ _ _ bs Hpq H).
  rewrite orderByLastSerial_filter, filter_filter_and. f_equal. f_equal.
    apply List.filter_ext. intros r. rewrite andb_assoc. reflexivity.
Qed.

(** *** Continuity of bundles *)

Lemma verifyEventArrayLoop_app (boardId : Id) (a : option Serial)
    (h t : list (BoardHistoryEntry Payload)) :
  verifyEventArrayLoop boardId a (h ++ t)
  = verifyEventArrayLoop boardId a h
    && verifyEventArrayLoop boardId
         (match last h with Some e => e_serial e | None => a end) t.
Proof.
  revert a; induction h as [|e h IH]; intros a; [reflexivity|].
  cbn [app verifyEventArrayLoop].
  destruct (verifyTwoPoints boardId a (e_serial e)); [|reflexivity].
  rewrite IH. f_equal. f_equal.
  rewrite last_cons. destruct (last h); reflexivity.
Qed.

(** X6: the flat verifier on the concatenation of some histories answers
    true exactly when the bundle verifier accepts the histories and each of
    them is consecutive within itself: the bundle verifier alone checks only
    the joints between histories. *)
Theorem flat_continuity_decomposes (boardId : Id) (init : Serial)
    (histories : list (list (BoardHistoryEntry Payload))) :
  verifyEventArrayContinuity boardId init (concat histories)
  = verifyContinuity boardId init histories
    && forallb (internallyContinuous boardId) histories.
Proof.
  unfold verifyEventArrayContinuity, verifyContinuity.
  generalize (Some init) as a.
  induction histories as [|h rest IH]; intros a; [reflexivity|].
  cbn [concat verifyContinuityLoop forallb].
  rewrite verifyEventArrayLoop_app.
  destruct h as [|h0 h']; [apply IH|].
  destruct (last (h0 :: h')) as [hn|] eqn:El;
    [|apply last_None in El; discriminate El].
  cbn [head verifyEventArrayLoop internallyContinuous].
  destruct (verifyTwoPoints boardId a (e_serial h0)); [|reflexivity].
  rewrite IH. cbn [andb].
  destruct (verifyEventArrayLoop boardId (e_serial h0) h'); cbn [andb];
    [reflexivity|].
  rewrite andb_false_r. reflexivity.
Qed.

Lemma verifyContinuityFromMetas_true (boardId : Id) (init : Serial)
    (metas : list BoardHistoryBundleMeta) :
  isSafeInteger init ->
  Forall (fun m => isSafeInteger (m_last_serial m)) metas ->
  verifyContinuityFromMetas boardId init metas = true <->
  forall (i : nat) (m : BoardHistoryBundleMeta) (p : Serial),
    metas !! i = Some m ->
    (init :: map m_last_serial metas) !! i = Some p ->
    m_first_serial m = p + 1.
Proof.
  intros Hinit Hsafe. revert init Hinit.
  induction Hsafe as [|m0 rest Hm0 Hrest IH]; intros init Hinit.
  - split; [|reflexivity]. intros _ i m p H. discriminate H.
  - cbn [verifyContinuityFromMetas verifyTwoPoints].
    rewrite (plusOne_safe init Hinit).
    destruct (Z.eqb_spec (m_first_serial m0) (init + 1)) as [E|E].
    + rewrite (IH _ Hm0). split.
      * intros H [|i] m p Hm Hp; simpl in Hm, Hp.
        -- injection Hm as <-. injection Hp as <-. exact E.
        -- exact (H i m p Hm Hp).
      * intros H i m p Hm Hp. exact (H (S i) m p Hm Hp).
    + split; [discriminate|]. intros H.
      specialize (H 0%nat m0 init eq_refl eq_refl). contradiction.
Qed.

Lemma verifyContinuityFromMetas_false (boardId : Id) (init : Serial)
    (metas : list BoardHistoryBundleMeta) :
  isSafeInteger init ->
  Forall (fun m => isSafeInteger (m_last_serial m)) metas ->
  verifyContinuityFromMetas boardId init metas = false <->
  exists (i : nat) (m : BoardHistoryBundleMeta) (p : Serial),
    metas !! i = Some m
    /\ (init :: map m_last_serial metas) !! i = Some p
    /\ m_first_serial m <> p + 1.
Proof.
  intros Hinit Hsafe. revert init Hinit.
  induction Hsafe as [|m0 rest Hm0 Hrest IH]; intros init Hinit.
  - split; [discriminate|]. intros (i & m & p & H & _). discriminate H.
  - cbn [verifyContinuityFromMetas verifyTwoPoints].
    rewrite (plusOne_safe init Hinit).
    destruct (Z.eqb_spec (m_first_serial m0) (init + 1)) as [E|E].
    + rewrite (IH _ Hm0). split.
      * intros (i & m & p & Hm & Hp & Hn). exists (S i), m, p. auto.
      * intros ([|i] & m & p & Hm & Hp & Hn); simpl in Hm, Hp.
        -- injection Hm as <-. injection Hp as <-. contradiction.
        -- exists i, m, p. auto.
    + split; [|reflexivity]. intros _. exists 0%nat, m0, init. auto.
Qed.

(** X7: when the start serial and the [last_serial] of every bundle are
    safe integers (of magnitude below 2^53, where adding one is exact), the
    verifier over bundle metadata answers true exactly when the first bundle
    starts at the start serial plus one and every later bundle starts at the
    [last_serial] of the bundle before it plus one, and false exactly when
    some bundle does not. *)
Theorem verifyContinuityFromMetas_chain (boardId : Id) (init : Serial)
    (metas : list BoardHistoryBundleMeta) :
  isSafeInteger init ->
  Forall (fun m => isSafeInteger (m_last_serial m)) metas ->
  (verifyContinuityFromMetas boardId init metas = true <->
   forall (i : nat) (m : BoardHistoryBundleMeta) (p : Serial),
     metas !! i = Some m ->
     (init :: map m_last_serial metas) !! i = Some p ->
     m_first_serial m = p + 1)
  /\ (verifyContinuityFromMetas boardId init metas = false <->
      exists (i : nat) (m : BoardHistoryBundleMeta) (p : Serial),
        metas !! i = Some m
        /\ (init :: map m_last_serial metas) !! i = Some p
        /\ m_first_serial m <> p + 1).
Proof.
  intros Hinit Hsafe. split.
  - apply verifyContinuityFromMetas_true; assumption.
  - apply verifyContinuityFromMetas_false; assumption.
Qed.

Lemma storedHistories_cons (r : BoardEventRow Payload)
    (rows : list (BoardEventRow Payload)) (evs : list (BoardHistoryEntry Payload)) :
  events r = Some evs ->
  storedHistories (r :: rows) = evs :: storedHistories rows.
Proof. intros H. unfold storedHistories. simpl. rewrite H. reflexivity. Qed.

(** X8: on rows tagged the way the append tags them, checking continuity
    on the metadata alone gives the same answer as checking it on the stored
    event arrays. *)
Theorem metas_agree_with_events (boardId : Id) (init : Serial)
    (rows : list (BoardEventRow Payload)) :
  Forall taggedByEnds rows ->
  verifyContinuityFromMetas boardId init (map metaOfRow rows)
  = verifyContinuity boardId init (storedHistories rows).
Proof.
  unfold verifyContinuity.
  revert init; induction rows as [|r rows IH]; intros init H; [reflexivity|].
  apply Forall_cons in H as [(evs & Hev & Hf & Hl) Hrest].
  rewrite (storedHistories_cons _ _ _ Hev).
  cbn [map verifyContinuityFromMetas verifyContinuityLoop metaOfRow
       m_first_serial m_last_serial].
  destruct (head evs) as [h0|]; [|discriminate Hf].
  destruct (last evs) as [hn|]; [|discriminate Hl].
  simpl in Hf, Hl. rewrite Hf, Hl.
  destruct (verifyTwoPoints boardId (Some init) (Some (first_serial r)));
    [apply IH; exact Hrest|reflexivity].
Qed.

(** X9: the append keeps every bundle row tagged by its ends: if all
    stored rows hold a non-empty event array with [first_serial] and
    [last_serial] the serials of its first and last entry, so do all rows
    after [storeEventHistoryBundle], whatever it was given and whether or not
    it threw. *)
Theorem append_keeps_rows_tagged (db : DB Item Connection Payload)
    (boardId : Id) (evs : list (BoardHistoryEntry Payload)) (savedAt : Z) :
  Forall taggedByEnds (board_event db) ->
  Forall taggedByEnds
    (board_event (fst (storeEventHistoryBundle db boardId evs savedAt))).
Proof.
  intros H. unfold storeEventHistoryBundle.
  destruct evs as [|e0 rest]; [exact H|].
  destruct (e_firstSerial e0); [exact H|].
  destruct (e_serial e0) as [f|] eqn:Ef; [|exact H]. cbn [assertNotNull].
  destruct (last (e0 :: rest) ≫= e_serial) as [l|] eqn:El; [|exact H].
  simpl. apply Forall_app. split; [exact H|].
  apply Forall_singleton. exists (e0 :: rest). simpl.
  rewrite Ef. repeat split. exact El.
Qed.

End Reads.

Section Rows.

Context {Item Connection Payload : Type}.
Variable migrateBoard : Board Item Connection -> Board Item Connection.
Variable isBoardEmpty : Board Item Connection -> bool.
Variable mkBootStrapEvent :
  Id -> Board Item Connection -> BoardHistoryEntry Payload.

Lemma selectBoard_rows (db : DB Item Connection Payload) (boardId : Id) :
  selectBoard db boardId
  = match rowsOf db boardId with
    | [] => None
    | r :: _ => Some (withAccessPolicy (row_content r) (storedPolicy db r))
    end.
Proof.
  unfold selectBoard, rowsOf, storedPolicy.
  destruct (List.filter _ (board db)) as [|r rest]; [reflexivity|].
  destruct (List.filter _ (board_access db)); reflexivity.
Qed.

Lemma filter_map_keeping {A : Type} (p : A -> bool) (f : A -> A) (l : list A) :
  (forall x, p (f x) = p x) ->
  List.filter p (map f l) = map f (List.filter p l).
Proof.
  intros H. induction l as [|x l IH]; simpl; [reflexivity|].
  rewrite H. destruct (p x); simpl; rewrite IH; reflexivity.
Qed.

Lemma filter_none {A : Type} (p : A -> bool) (l : list A) :
  (forall x, In x l -> p x = false) -> List.filter p l = [].
Proof.
  induction l as [|x l IH]; intros H; simpl; [reflexivity|].
  rewrite (H x (or_introl eq_refl)). apply IH. intros y Hy. apply H. right; exact Hy.
Qed.

Lemma filter_all {A : Type} (p : A -> bool) (l : list A) :
  (forall x, In x l -> p x = true) -> List.filter p l = l.
Proof.
  induction l as [|x l IH]; intros H; simpl; [reflexivity|].
  rewrite (H x (or_introl eq_refl)). f_equal. apply IH.
  intros y Hy. apply H. right; exact Hy.
Qed.

Lemma rowsOf_updateAccessPolicy (db : DB Item Connection Payload)
    (boardId other : Id) (policy : option BoardAccessPolicy) :
  rowsOf (updateAccessPolicy db boardId policy) other
  = map (fun r =>
           if bool_decide (row_id r = boardId)
           then {| row_id := row_id r; row_name := row_name r;
                   row_content := row_content r;
                   public_read := match policy with
                                  | Some p => publicRead p | None => true end;
                   public_write := match policy with
                                   | Some p => publicWrite p | None => true end |}
           else r)
        (rowsOf db other).
Proof.
  unfold rowsOf, updateAccessPolicy; simpl.
  apply filter_map_keeping. intros r.
  destruct (bool_decide (row_id r = boardId)); reflexivity.
Qed.

Lemma access_rows_updated (db : DB Item Connection Payload) (boardId : Id)
    (policy : option BoardAccessPolicy) :
  List.filter (fun a => bool_decide (acc_board_id a = boardId))
              (board_access (updateAccessPolicy db boardId policy))
  = match policy with
    | Some p => map (fun entry => {| acc_board_id := boardId;
                                     acc_domain := domain entry;
                                     acc_email := email entry;
                                     acc_access := access entry |})
                    (allowList p)
    | None => []
    end.
Proof.
  unfold updateAccessPolicy; simpl. rewrite List.filter_app.
  rewrite filter_none.
  - simpl. destruct policy as [p|]; [|reflexivity].
    apply filter_all. intros a Ha. apply in_map_iff in Ha as (e & <- & _).
    simpl. apply bool_decide_eq_true_2. reflexivity.
  - intros a Ha. apply List.filter_In in Ha as [_ Ha].
    destruct (bool_decide (acc_board_id a = boardId)); [discriminate Ha|reflexivity].
Qed.

Lemma access_rows_kept (db : DB Item Connection Payload) (boardId other : Id)
    (policy : option BoardAccessPolicy) :
  other <> boardId ->
  List.filter (fun a => bool_decide (acc_board_id a = other))
              (board_access (updateAccessPolicy db boardId policy))
  = List.filter (fun a => bool_decide (acc_board_id a = other)) (board_access db).
Proof.
  intros Hne. unfold updateAccessPolicy; simpl. rewrite List.filter_app.
  rewrite filter_filter_and.
  rewrite (filter_none _ (match policy with Some _ => _ | None => _ end)).
  - rewrite app_nil_r. apply List.filter_ext. intros a.
    destruct (bool_decide_reflect (acc_board_id a = other)) as [E|E];
      [|rewrite andb_false_r; reflexivity].
    rewrite bool_decide_eq_false_2 by congruence. reflexivity.
  - intros a Ha. destruct policy as [p|]; [|destruct Ha].
    apply in_map_iff in Ha as (e & <- & _). simpl.
    apply bool_decide_eq_false_2. congruence.
Qed.

Lemma entries_read_back (boardId : Id) (l : list AccessListEntry) :
  map (fun a => {| domain := acc_domain a; email := acc_email a;
                   access := acc_access a |})
      (map (fun entry => {| acc_board_id := boardId; acc_domain := domain entry;
                            acc_email := email entry;
                            acc_access := access entry |}) l)
  = l.
Proof.
  induction l as [|[d e a] l IH]; simpl; [reflexivity|]. rewrite IH. reflexivity.
Qed.

Lemma storedPolicy_updated (db : DB Item Connection Payload) (boardId : Id)
    (policy : option BoardAccessPolicy) (r : BoardRow Item Connection) :
  row_id r = boardId ->
  public_read r = match policy with Some p => publicRead p | None => true end ->
  public_write r = match policy with Some p => publicWrite p | None => true end ->
  storedPolicy (updateAccessPolicy db boardId policy) r = readBackPolicy policy.
Proof.
  intros Hid Hr Hw. unfold storedPolicy. rewrite Hid, access_rows_updated.
  unfold readBackPolicy. destruct policy as [[l pr pw]|]; [|reflexivity].
  simpl in *. destruct l as [|e l]; [reflexivity|].
  rewrite <- (entries_read_back boardId (e :: l)) at 2.
  simpl. rewrite Hr, Hw. reflexivity.
Qed.

Lemma policy_read_back (db : DB Item Connection Payload)
    (boardId : Id) (policy : option BoardAccessPolicy)
    (r : BoardRow Item Connection) (rest : list (BoardRow Item Connection)) :
  rowsOf db boardId = r :: rest ->
  selectBoard (updateAccessPolicy db boardId policy) boardId
  = Some (withAccessPolicy (row_content r) (readBackPolicy policy))
  /\ forall other, other <> boardId ->
       selectBoard (updateAccessPolicy db boardId policy) other
       = selectBoard db other.
Proof.
  intros Hrows. split.
  - rewrite selectBoard_rows, rowsOf_updateAccessPolicy, Hrows.
    assert (Hid : row_id r = boardId).
    { assert (Hin : In r (rowsOf db boardId)) by (rewrite Hrows; left; reflexivity).
      apply List.filter_In in Hin as [_ Hin]. apply bool_decide_eq_true_1 in Hin.
      exact Hin. }
    cbn [map]. rewrite bool_decide_eq_true_2 by exact Hid.
    rewrite storedPolicy_updated by (try reflexivity; exact Hid).
    reflexivity.
  - intros other Hne. rewrite !selectBoard_rows, rowsOf_updateAccessPolicy.
    assert (Hsame : map (fun r0 : BoardRow Item Connection =>
                           if bool_decide (row_id r0 = boardId)
                           then {| row_id := row_id r0; row_name := row_name r0;
                                   row_content := row_content r0;
                                   public_read := match policy with
                                                  | Some p => publicRead p
                                                  | None => true end;
                                   public_write := match policy with
                                                   | Some p => publicWrite p
                                                   | None => true end |}
                           else r0) (rowsOf db other) = rowsOf db other).
    { rewrite <- (map_id (rowsOf db other)) at 2. apply map_ext_in.
      intros r0 Hr0. apply List.filter_In in Hr0 as [_ Hr0].
      apply bool_decide_eq_true_1 in Hr0.
      rewrite bool_decide_eq_false_2 by congruence. reflexivity. }
    rewrite Hsame. destruct (rowsOf db other) as [|r0 rest0] eqn:Er; [reflexivity|].
    assert (Hid0 : row_id r0 = other).
    { assert (Hin : In r0 (rowsOf db other)) by (rewrite Er; left; reflexivity).
      apply List.filter_In in Hin as [_ Hin]. apply bool_decide_eq_true_1 in Hin.
      exact Hin. }
    unfold storedPolicy. rewrite Hid0, access_rows_kept by exact Hne.
    reflexivity.
Qed.

(** X10: a policy written with [updateAccessPolicy] reads back through
    [selectBoardQuery] as it was written when its allow list is not empty;
    a policy with an empty allow list, like no policy at all, reads back as
    no policy. The content, and every other board, read as before. *)
Theorem access_policy_round_trip (db : DB Item Connection Payload)
    (boardId : Id) (policy : option BoardAccessPolicy)
    (r : BoardRow Item Connection) (rest : list (BoardRow Item Connection)) :
  rowsOf db boardId = r :: rest ->
  selectBoard (updateAccessPolicy db boardId policy) boardId
  = Some (withAccessPolicy (row_content r) (readBackPolicy policy))
  /\ forall other, other <> boardId ->
       selectBoard (updateAccessPolicy db boardId policy) other
       = selectBoard db other.
Proof. apply policy_read_back. Qed.

Lemma rowsOf_head_id (db : DB Item Connection Payload) (boardId : Id)
    (r : BoardRow Item Connection) (rest : list (BoardRow Item Connection)) :
  rowsOf db boardId = r :: rest -> row_id r = boardId.
Proof.
  intros H.
  assert (Hin : In r (rowsOf db boardId)) by (rewrite H; left; reflexivity).
  apply List.filter_In in Hin as [_ Hin]. apply bool_decide_eq_true_1 in Hin.
  exact Hin.
Qed.

(** X11: [updateBoard] throws "Board not found", changing nothing, unless
    exactly one row has the id. Otherwise the board then reads with its
    stored items, connections and serial, with the new name (the stored one
    when the new name is empty) and with the policy given as it reads back:
    an update that names no policy, or one with an empty allow list, leaves
    the board without policy. Bundles and tokens are not touched. *)
Theorem updateBoard_result (db : DB Item Connection Payload) (boardId : Id)
    (name' : string) (policy : option BoardAccessPolicy) :
  match rowsOf db boardId with
  | [r] =>
      snd (updateBoard db boardId name' policy) = Done
      /\ selectBoard (fst (updateBoard db boardId name' policy)) boardId
         = Some (withAccessPolicy
                   (if bool_decide (name' = "") then row_content r
                    else withName (row_content r) name')
                   (readBackPolicy policy))
      /\ board_event (fst (updateBoard db boardId name' policy)) = board_event db
      /\ board_api_token (fst (updateBoard db boardId name' policy))
         = board_api_token db
  | _ => updateBoard db boardId name' policy = (db, Failed (BoardNotFound boardId))
  end.
Proof.
  unfold updateBoard.
  destruct (rowsOf db boardId) as [|r [|r' rest]] eqn:Hrows; try reflexivity.
  pose proof (rowsOf_head_id _ _ _ _ Hrows) as Hid.
  cbn [fst snd]. split; [reflexivity|]. split; [|split; reflexivity].
  match goal with
  | |- selectBoard (updateAccessPolicy ?d _ _) _ = _ => set (db1 := d)
  end.
  assert (Hrows1 : exists r1, rowsOf db1 boardId = [r1]
                              /\ row_content r1
                                 = match policy with
                                   | Some p =>
                                       withAccessPolicy
                                         (if bool_decide (name' = "")
                                          then row_content r
                                          else withName (row_content r) name')
                                         (Some p)
                                   | None =>
                                       if bool_decide (name' = "")
                                       then row_content r
                                       else withName (row_content r) name'
                                   end).
  { unfold rowsOf, db1; cbn [board].
    rewrite filter_map_keeping
      by (intros x; destruct (bool_decide (row_id x = boardId)) eqn:E;
          cbn [row_id]; rewrite ?E; reflexivity).
    fold (rowsOf db boardId). rewrite Hrows. cbn [map].
    rewrite bool_decide_eq_true_2 by exact Hid.
    eexists. split; reflexivity. }
  destruct Hrows1 as (r1 & Hr1 & Hc1).
  destruct (policy_read_back db1 boardId policy r1 [] Hr1) as [-> _].
  rewrite Hc1. destruct policy; reflexivity.
Qed.

Lemma store_keeps_tables (db : DB Item Connection Payload) (boardId : Id)
    (evs : list (BoardHistoryEntry Payload)) (savedAt : Z) :
  board (fst (storeEventHistoryBundle db boardId evs savedAt)) = board db
  /\ board_access (fst (storeEventHistoryBundle db boardId evs savedAt))
     = board_access db
  /\ board_api_token (fst (storeEventHistoryBundle db boardId evs savedAt))
     = board_api_token db.
Proof.
  unfold storeEventHistoryBundle.
  destruct evs as [|e0 rest]; [repeat split|].
  destruct (e_firstSerial e0); [repeat split|].
  destruct (assertNotNull (e_serial e0)); [|repeat split].
  destruct (assertNotNull _); repeat split.
Qed.

Lemma selectBoard_tables (db db' : DB Item Connection Payload) (boardId : Id) :
  board db' = board db ->
  board_access db' = board_access db ->
  selectBoard db' boardId = selectBoard db boardId.
Proof.
  intros Hb Ha. unfold selectBoard. rewrite Hb, Ha. reflexivity.
Qed.

Lemma createBoard_select (columnDefault : bool) (db : DB Item Connection Payload)
    (b : Board Item Connection) (savedAt : Z) :
  rowsOf db (id b) = [] ->
  snd (createBoard migrateBoard isBoardEmpty mkBootStrapEvent columnDefault
         db b savedAt) = Done
  /\ selectBoard (fst (createBoard migrateBoard isBoardEmpty mkBootStrapEvent
                         columnDefault db b savedAt)) (id b)
     = Some (withAccessPolicy (mkSnapshot migrateBoard b 0)
               (readBackPolicy (accessPolicy b)))
  /\ board_api_token (fst (createBoard migrateBoard isBoardEmpty mkBootStrapEvent
                             columnDefault db b savedAt))
     = board_api_token db.
Proof.
  intros Hrows. unfold createBoard. rewrite Hrows.
  match goal with
  | |- context [updateAccessPolicy ?d _ _] => set (db1 := d)
  end.
  assert (Hr1 : rowsOf db1 (id b)
                = [ {| row_id := id b; row_name := name b;
                       row_content := mkSnapshot migrateBoard b 0;
                       public_read := columnDefault;
                       public_write := columnDefault |} ]).
  { unfold rowsOf, db1; cbn [board]. rewrite List.filter_app.
    fold (rowsOf db (id b)). rewrite Hrows. simpl.
    rewrite bool_decide_eq_true_2 by reflexivity. reflexivity. }
  destruct (policy_read_back db1 (id b) (accessPolicy b) _ [] Hr1) as [Hsel _].
  cbn [row_content] in Hsel.
  destruct (negb (isBoardEmpty b)); cbn [fst snd].
  - destruct (store_keeps_tables (updateAccessPolicy db1 (id b) (accessPolicy b))
                (id b) [mkBootStrapEvent (id b) b] savedAt) as (Hb & Ha & Ht).
    split; [reflexivity|]. split.
    + rewrite (selectBoard_tables _ _ _ Hb Ha). exact Hsel.
    + rewrite Ht. reflexivity.
  - split; [reflexivity|]. split; [exact Hsel|reflexivity].
Qed.

(** X12: [createBoard] throws "Board already exists", changing nothing,
    when a row has the board's id. Otherwise the board then reads as its
    snapshot at serial 0 with its policy as it reads back, whatever the
    schema's defaults for the policy columns; no token is created. *)
Theorem createBoard_result (columnDefault : bool)
    (db : DB Item Connection Payload) (b : Board Item Connection) (savedAt : Z) :
  match rowsOf db (id b) with
  | [] =>
      snd (createBoard migrateBoard isBoardEmpty mkBootStrapEvent columnDefault
             db b savedAt) = Done
      /\ selectBoard (fst (createBoard migrateBoard isBoardEmpty mkBootStrapEvent
                             columnDefault db b savedAt)) (id b)
         = Some (withAccessPolicy (mkSnapshot migrateBoard b 0)
                   (readBackPolicy (accessPolicy b)))
      /\ board_api_token (fst (createBoard migrateBoard isBoardEmpty
                                 mkBootStrapEvent columnDefault db b savedAt))
         = board_api_token db
  | _ :: _ =>
      createBoard migrateBoard isBoardEmpty mkBootStrapEvent columnDefault
        db b savedAt
      = (db, Failed (BoardAlreadyExists (id b)))
  end.
Proof.
  destruct (rowsOf db (id b)) as [|r rest] eqn:Hrows.
  - apply createBoard_select. exact Hrows.
  - unfold createBoard. rewrite Hrows. reflexivity.
Qed.

(** X13: the bootstrap append of [createBoard] is not awaited, so what it
    throws does not reach [createBoard]: when the bootstrap event of a
    non-empty board carries no serial, the append throws on every store, yet
    [createBoard] completes, leaving the board's row without any bundle. *)
Theorem createBoard_loses_bootstrap_error (columnDefault : bool)
    (db : DB Item Connection Payload) (b : Board Item Connection) (savedAt : Z) :
  rowsOf db (id b) = [] ->
  isBoardEmpty b = false ->
  e_firstSerial (mkBootStrapEvent (id b) b) = None ->
  e_serial (mkBootStrapEvent (id b) b) = None ->
  (forall db0 : DB Item Connection Payload,
      snd (storeEventHistoryBundle db0 (id b) [mkBootStrapEvent (id b) b] savedAt)
      = Throw AssertNotNullFailed)
  /\ snd (createBoard migrateBoard isBoardEmpty mkBootStrapEvent columnDefault
            db b savedAt) = Done
  /\ rowsOf (fst (createBoard migrateBoard isBoardEmpty mkBootStrapEvent
                    columnDefault db b savedAt)) (id b) <> []
  /\ board_event (fst (createBoard migrateBoard isBoardEmpty mkBootStrapEvent
                         columnDefault db b savedAt))
     = board_event db.
Proof.
  intros Hrows Hne Hf Hs.
  assert (Hthrow : forall db0 : DB Item Connection Payload,
             storeEventHistoryBundle db0 (id b) [mkBootStrapEvent (id b) b] savedAt
             = (db0, Throw AssertNotNullFailed)).
  { intros db0. unfold storeEventHistoryBundle. rewrite Hf, Hs. reflexivity. }
  split; [intros db0; rewrite Hthrow; reflexivity|].
  unfold createBoard. rewrite Hrows, Hne. cbn [negb]. rewrite Hthrow. cbn [fst snd].
  split; [reflexivity|]. split; [|reflexivity].
  rewrite rowsOf_updateAccessPolicy. unfold rowsOf at 1; cbn [board].
  rewrite List.filter_app. simpl.
  rewrite bool_decide_eq_true_2 by reflexivity.
  intros F. apply map_eq_nil in F. apply app_eq_nil in F as [_ F]. discriminate F.
Qed.

End Rows.

Section Loads.

Context {Item Connection Payload Inverse : Type}.
Variable boardReducer :
  Board Item Connection -> BoardHistoryEntry Payload -> ReducerOptions
  -> Res (Board Item Connection * Inverse).
Variable migrateEvent : BoardHistoryEntry Payload -> BoardHistoryEntry Payload.
Variable migrateBoard : Board Item Connection -> Board Item Connection.
Variable isBoardEmpty : Board Item Connection -> bool.
Variable mkBootStrapEvent :
  Id -> Board Item Connection -> BoardHistoryEntry Payload.

Lemma orZero_id (x : Serial) : orZero x = x.
Proof. unfold orZero. destruct (Z.eqb_spec x 0); congruence. Qed.

Lemma withSerial_same (b : Board Item Connection) : withSerial b (serial b) = b.
Proof. destruct b; reflexivity. Qed.

Lemma normal_replay_result (db : DB Item Connection Payload) (boardId : Id)
    (snapshot : Board Item Connection) (st : LoaderState Item Connection) :
  getBoardHistory migrateEvent db boardId (serial snapshot)
    (updateBoardWithEventChunk boardReducer snapshot) (initLoader snapshot)
  = (st, Ok tt) ->
  let valid := List.filter (serialAfter (serial snapshot))
                 (concat (streamed migrateEvent
                            (selectHistoryAfter db boardId (serial snapshot)))) in
  foldEntries boardReducer true snapshot valid = Ok (l_board st)
  /\ l_rebuildingSnapshot st = false
  /\ l_historyEventCount st = length valid
  /\ l_lastSerial st = match last valid with
                       | Some l => default (serial snapshot) (e_serial l)
                       | None => 0
                       end.
Proof.
  intros H valid.
  destruct (normal_replay_state boardReducer migrateEvent _ _ _ _ H) as [Hflag Hcount].
  assert (Hok : snd (getBoardHistory migrateEvent db boardId (serial snapshot)
                       (updateBoardWithEventChunk boardReducer snapshot)
                       (initLoader snapshot)) = Ok tt)
    by (rewrite H; reflexivity).
  pose proof (getBoardHistory_ok_rows migrateEvent _ _ _ _ _ Hok) as Hw.
  destruct (getBoardHistory_feed migrateEvent db boardId (serial snapshot)
              (updateBoardWithEventChunk boardReducer snapshot)
              (initLoader snapshot) Hw) as (Hst & Hfed & _).
  specialize (Hfed Hok). rewrite H in Hst; simpl in Hst.
  destruct (feed _ _ _) as [st' r] eqn:Ef. simpl in Hst, Hfed. subst st' r.
  destruct (feed_update_ok boardReducer _ _ _ _ Ef) as (Hb & _ & Hl).
  rewrite concat_delivered in Hb, Hl.
  repeat split; assumption.
Qed.

Lemma fetchBoard_normal (db : DB Item Connection Payload) (boardId : Id)
    (snapshot : Board Item Connection) (st : LoaderState Item Connection) :
  selectBoard db boardId = Some snapshot ->
  getBoardHistory migrateEvent db boardId (serial snapshot)
    (updateBoardWithEventChunk boardReducer snapshot) (initLoader snapshot)
  = (st, Ok tt) ->
  let valid := List.filter (serialAfter (serial snapshot))
                 (concat (streamed migrateEvent
                            (selectHistoryAfter db boardId (serial snapshot)))) in
  let serial' := default (serial snapshot) (last valid ≫= e_serial) in
  fetchBoard boardReducer migrateEvent migrateBoard db boardId
  = (Ok (Some {| ba_board := withSerial (l_board st) serial';
                 accessTokens := selectTokens db boardId |}),
     QSelectBoard boardId
     :: QHistoryAfter boardId (serial snapshot)
     :: (if (1000 <? length valid)%nat
         then [QSaveSnapshot (mkSnapshot migrateBoard (l_board st) serial')]
         else [])
     ++ [QSelectTokens boardId]).
Proof.
  intros Hsel H valid serial'.
  destruct (normal_replay_result _ _ _ _ H) as (_ & Hflag & Hcount & Hlast).
  fold valid in Hcount, Hlast.
  unfold fetchBoard, replayHistory. rewrite Hsel, H, Hflag, Hcount, Hlast.
  rewrite orZero_id, orb_false_r.
  assert (Hs : (if (0 <? length valid)%nat
                then match last valid with
                     | Some l => default (serial snapshot) (e_serial l)
                     | None => 0
                     end
                else serial snapshot) = serial').
  { subst serial'. destruct valid as [|v t] eqn:Ev; [reflexivity|].
    destruct (last (v :: t)) eqn:El; [reflexivity|].
    apply last_None in El. discriminate El. }
  rewrite Hs. reflexivity.
Qed.

(** X14: when the replay from the snapshot goes through, the board is
    returned at the serial of the last streamed event above the snapshot's
    serial, or at the snapshot's serial when there is none; the returned
    serial is never below the snapshot's. *)
Theorem loaded_serial (db : DB Item Connection Payload) (boardId : Id)
    (snapshot : Board Item Connection) (st : LoaderState Item Connection) :
  selectBoard db boardId = Some snapshot ->
  getBoardHistory migrateEvent db boardId (serial snapshot)
    (updateBoardWithEventChunk boardReducer snapshot) (initLoader snapshot)
  = (st, Ok tt) ->
  let valid := List.filter (serialAfter (serial snapshot))
                 (concat (streamed migrateEvent
                            (selectHistoryAfter db boardId (serial snapshot)))) in
  exists r log,
    fetchBoard boardReducer migrateEvent migrateBoard db boardId
    = (Ok (Some r), log)
    /\ serial (ba_board r) = default (serial snapshot) (last valid ≫= e_serial)
    /\ serial snapshot <= serial (ba_board r)
    /\ (valid = [] -> serial (ba_board r) = serial snapshot)
    /\ (valid <> [] -> serial snapshot < serial (ba_board r)).
Proof.
  intros Hsel H valid.
  rewrite (fetchBoard_normal _ _ _ _ Hsel H). fold valid.
  eexists _, _. split; [reflexivity|]. cbn [ba_board serial withSerial].
  split; [reflexivity|].
  destruct (last valid) as [l|] eqn:El.
  - assert (Hin : In l valid).
    { apply list_elem_of_In. apply last_Some in El as [pre ->].
      apply elem_of_app. right. apply list_elem_of_singleton. reflexivity. }
    apply List.filter_In in Hin as [_ Hin].
    destruct (serialAfter_serial _ _ Hin) as (n & En & Hn).
    cbn [mbind option_bind]. simpl. rewrite En. simpl.
    repeat split; try lia.
    intros Hnil. rewrite Hnil in El. discriminate El.
  - apply last_None in El. rewrite El. simpl.
    repeat split; try lia. intros F. contradiction.
Qed.

Lemma load_of_current_board_aux (db : DB Item Connection Payload) (boardId : Id)
    (snapshot : Board Item Connection) (st : LoaderState Item Connection) :
  selectBoard db boardId = Some snapshot ->
  getBoardHistory migrateEvent db boardId (serial snapshot)
    (updateBoardWithEventChunk boardReducer snapshot) (initLoader snapshot)
  = (st, Ok tt) ->
  List.filter (serialAfter (serial snapshot))
    (concat (streamed migrateEvent
               (selectHistoryAfter db boardId (serial snapshot)))) = [] ->
  fetchBoard boardReducer migrateEvent migrateBoard db boardId
  = (Ok (Some {| ba_board := snapshot;
                 accessTokens := selectTokens db boardId |}),
     [QSelectBoard boardId; QHistoryAfter boardId (serial snapshot);
      QSelectTokens boardId]).
Proof.
  intros Hsel H Hnil.
  rewrite (fetchBoard_normal _ _ _ _ Hsel H).
  destruct (normal_replay_result _ _ _ _ H) as (Hb & _).
  rewrite Hnil in Hb |- *. simpl in Hb. injection Hb as <-.
  simpl. rewrite withSerial_same. reflexivity.
Qed.

(** X15: loading a board whose log holds nothing above the snapshot's
    serial, the stream being accepted, returns the snapshot as selected,
    with the stored tokens, after the three read queries and no write. *)
Theorem load_of_current_board (db : DB Item Connection Payload) (boardId : Id)
    (snapshot : Board Item Connection) (st : LoaderState Item Connection) :
  selectBoard db boardId = Some snapshot ->
  getBoardHistory migrateEvent db boardId (serial snapshot)
    (updateBoardWithEventChunk boardReducer snapshot) (initLoader snapshot)
  = (st, Ok tt) ->
  List.filter (serialAfter (serial snapshot))
    (concat (streamed migrateEvent
               (selectHistoryAfter db boardId (serial snapshot)))) = [] ->
  fetchBoard boardReducer migrateEvent migrateBoard db boardId
  = (Ok (Some {| ba_board := snapshot;
                 accessTokens := selectTokens db boardId |}),
     [QSelectBoard boardId; QHistoryAfter boardId (serial snapshot);
      QSelectTokens boardId]).
Proof. apply load_of_current_board_aux. Qed.

(** X16: [fetchBoard] returns null exactly when no row of [board] has the
    id, and then the snapshot query is all it sends. *)
Theorem fetchBoard_null (db : DB Item Connection Payload) (boardId : Id) :
  (fst (fetchBoard boardReducer migrateEvent migrateBoard db boardId) = Ok None
   <-> rowsOf db boardId = [])
  /\ (rowsOf db boardId = [] ->
      fetchBoard boardReducer migrateEvent migrateBoard db boardId
      = (Ok None, [QSelectBoard boardId])).
Proof.
  unfold fetchBoard. rewrite selectBoard_rows.
  destruct (rowsOf db boardId) as [|r rest].
  - split; [split; reflexivity|reflexivity].
  - split; [|discriminate].
    destruct (replayHistory _ _ _ _ _) as [[st [u|e]] log]; simpl;
      split; discriminate.
Qed.

Lemma rowsOf_saveBoardSnapshot (db : DB Item Connection Payload)
    (b : Board Item Connection) (other : Id) :
  rowsOf (saveBoardSnapshot b db) other
  = map (fun r => if bool_decide (row_id r = id b)
                  then {| row_id := row_id r; row_name := name b;
                          row_content := b; public_read := public_read r;
                          public_write := public_write r |}
                  else r)
        (rowsOf db other).
Proof.
  unfold rowsOf, saveBoardSnapshot; cbn [board].
  apply filter_map_keeping. intros r.
  destruct (bool_decide (row_id r = id b)); reflexivity.
Qed.

Lemma saved_snapshot_reads_back (db : DB Item Connection Payload)
    (b : Board Item Connection) (r : BoardRow Item Connection)
    (rest : list (BoardRow Item Connection)) :
  rowsOf db (id b) = r :: rest ->
  selectBoard (saveBoardSnapshot b db) (id b)
  = Some (withAccessPolicy b (storedPolicy db r)).
Proof.
  intros Hrows. pose proof (rowsOf_head_id _ _ _ _ Hrows) as Hid.
  rewrite selectBoard_rows, rowsOf_saveBoardSnapshot, Hrows. cbn [map].
  rewrite bool_decide_eq_true_2 by exact Hid.
  unfold storedPolicy. reflexivity.
Qed.

Lemma saveBoardSnapshot_elsewhere (db : DB Item Connection Payload)
    (b : Board Item Connection) (other : Id) :
  other <> id b ->
  selectBoard (saveBoardSnapshot b db) other = selectBoard db other.
Proof.
  intros Hne. rewrite !selectBoard_rows, rowsOf_saveBoardSnapshot.
  assert (Hsame : forall l : list (BoardRow Item Connection),
             (forall r, In r l -> row_id r = other) ->
             map (fun r => if bool_decide (row_id r = id b)
                           then {| row_id := row_id r; row_name := name b;
                                   row_content := b;
                                   public_read := public_read r;
                                   public_write := public_write r |}
                           else r) l = l).
  { intros l Hl. rewrite <- (map_id l) at 2. apply map_ext_in. intros r Hr.
    rewrite bool_decide_eq_false_2; [reflexivity|].
    rewrite (Hl r Hr). exact Hne. }
  rewrite Hsame; [reflexivity|].
  intros r Hr. apply List.filter_In in Hr as [_ Hr].
  apply bool_decide_eq_true_1 in Hr. exact Hr.
Qed.

(** X17: a snapshot saved for a board that has a row reads back as that
    snapshot, its access policy replaced by what the policy tables hold;
    saving it a second time changes nothing more; every other board reads
    as before, and bundles, policy rows and tokens are not touched. *)
Theorem snapshot_round_trip (db : DB Item Connection Payload)
    (b : Board Item Connection) (r : BoardRow Item Connection)
    (rest : list (BoardRow Item Connection)) :
  rowsOf db (id b) = r :: rest ->
  selectBoard (saveBoardSnapshot b db) (id b)
  = Some (withAccessPolicy b (storedPolicy db r))
  /\ saveBoardSnapshot b (saveBoardSnapshot b db) = saveBoardSnapshot b db
  /\ (forall other, other <> id b ->
         selectBoard (saveBoardSnapshot b db) other = selectBoard db other)
  /\ board_event (saveBoardSnapshot b db) = board_event db
  /\ board_access (saveBoardSnapshot b db) = board_access db
  /\ board_api_token (saveBoardSnapshot b db) = board_api_token db.
Proof.
  intros Hrows. split; [exact (saved_snapshot_reads_back _ _ _ _ Hrows)|].
  split; [|split; [intros other; apply saveBoardSnapshot_elsewhere|repeat split]].
  unfold saveBoardSnapshot; cbn [board board_access board_event board_api_token].
  f_equal. rewrite map_map. apply map_ext. intros r0.
  destruct (bool_decide (row_id r0 = id b)) eqn:E; cbn [row_id];
    rewrite E; reflexivity.
Qed.

(** X18: what a load leaves in the store. Replaying the statements a
    successful [fetchBoard] sent leaves bundles, policy rows and tokens as
    they were; and when it saved a snapshot whose id is the board's, the
    next snapshot query returns that snapshot with the access policy the
    load itself had read. *)
Theorem store_after_load (db : DB Item Connection Payload) (boardId : Id)
    (snapshot : Board Item Connection)
    (r : BoardAndAccessTokens Item Connection)
    (log : list (Query Item Connection)) :
  selectBoard db boardId = Some snapshot ->
  fetchBoard boardReducer migrateEvent migrateBoard db boardId
  = (Ok (Some r), log) ->
  let db' := foldl applyQuery db log in
  board_event db' = board_event db
  /\ board_access db' = board_access db
  /\ board_api_token db' = board_api_token db
  /\ (In (QSaveSnapshot (migrateBoard (ba_board r))) log ->
      id (migrateBoard (ba_board r)) = boardId ->
      selectBoard db' boardId
      = Some (withAccessPolicy (migrateBoard (ba_board r))
                (accessPolicy snapshot)))
  /\ (~ In (QSaveSnapshot (migrateBoard (ba_board r))) log -> db' = db).
Proof.
  intros Hsel Hfetch db'. subst db'.
  unfold fetchBoard in Hfetch. rewrite Hsel in Hfetch.
  destruct (replayHistory _ _ _ _ _) as [[st [[]|e]] hist] eqn:Er;
    [|discriminate Hfetch].
  assert (Hhist : forall d : DB Item Connection Payload, foldl applyQuery d hist = d).
  { unfold replayHistory in Er.
    destruct (getBoardHistory _ _ _ _ _ _) as [st1 [[]|e1]].
    - injection Er as _ <-. reflexivity.
    - destruct (getFullBoardHistory _ _ _ _ _) as [st3 r3].
      injection Er as _ _ <-. reflexivity. }
  injection Hfetch as <- <-.
  cbn [foldl applyQuery ba_board]. rewrite !foldl_app, Hhist.
  unfold mkSnapshot. rewrite <- (withSerial_same (withSerial (l_board st) _)) at 1.
  cbn [serial withSerial].
  destruct ((1000 <? l_historyEventCount st)%nat || l_rebuildingSnapshot st).
  - cbn [foldl applyQuery].
    repeat split.
    + intros _ Hid.
      rewrite selectBoard_rows in Hsel.
      destruct (rowsOf db boardId) as [|r0 rest] eqn:Hrows; [discriminate Hsel|].
      injection Hsel as <-. cbn [accessPolicy withAccessPolicy].
      rewrite <- Hid in Hrows |- *.
      exact (saved_snapshot_reads_back _ _ _ _ Hrows).
    + intros Hnot. exfalso. apply Hnot.
      apply in_cons, in_or_app. right. apply in_or_app. left.
      left. reflexivity.
  - cbn [foldl applyQuery]. repeat split.
    intros Hin Hid. exfalso.
    destruct Hin as [Hin|Hin]; [discriminate Hin|].
    apply in_app_or in Hin as [Hin|Hin].
    + unfold replayHistory in Er.
      destruct (getBoardHistory _ _ _ _ _ _) as [st1 [[]|e1]].
      * injection Er as _ <-. destruct Hin as [Hin|[]]. discriminate Hin.
      * destruct (getFullBoardHistory _ _ _ _ _) as [st3 r3].
        injection Er as _ _ <-.
        destruct Hin as [Hin|[Hin|[]]]; discriminate Hin.
    + destruct Hin as [Hin|[]]. discriminate Hin.
Qed.

Lemma no_bundles_no_history (db : DB Item Connection Payload) (boardId : Id)
    (afterSerial : Serial) :
  (forall row, In row (board_event db) -> ev_board_id row <> boardId) ->
  selectHistoryAfter db boardId afterSerial = [].
Proof.
  intros H. unfold selectHistoryAfter. rewrite filter_none; [reflexivity|].
  intros row Hrow. rewrite bool_decide_eq_false_2 by (apply H; exact Hrow).
  reflexivity.
Qed.

(** X19: create, then load. After [createBoard] of an empty board under
    an id that has no row and no bundle, with a migration that leaves a
    serial of 0 at 0, [fetchBoard] returns the created snapshot at serial 0
    with its policy as it reads back and the tokens already stored for the
    id, after three read queries and no write. *)
Theorem create_then_load (columnDefault : bool)
    (db : DB Item Connection Payload) (b : Board Item Connection) (savedAt : Z) :
  rowsOf db (id b) = [] ->
  (forall row, In row (board_event db) -> ev_board_id row <> id b) ->
  isBoardEmpty b = true ->
  serial (migrateBoard (withSerial b 0)) = 0 ->
  fetchBoard boardReducer migrateEvent migrateBoard
    (fst (createBoard migrateBoard isBoardEmpty mkBootStrapEvent columnDefault
            db b savedAt)) (id b)
  = (Ok (Some {| ba_board := withAccessPolicy (mkSnapshot migrateBoard b 0)
                               (readBackPolicy (accessPolicy b));
                 accessTokens := selectTokens db (id b) |}),
     [QSelectBoard (id b); QHistoryAfter (id b) 0; QSelectTokens (id b)]).
Proof.
  intros Hrows Hnone Hempty Hmig.
  destruct (createBoard_select migrateBoard isBoardEmpty mkBootStrapEvent
              columnDefault db b savedAt Hrows) as (_ & Hsel & Htok).
  set (db' := fst (createBoard migrateBoard isBoardEmpty mkBootStrapEvent
                     columnDefault db b savedAt)) in *.
  set (snapshot := withAccessPolicy (mkSnapshot migrateBoard b 0)
                     (readBackPolicy (accessPolicy b))) in *.
  assert (Hserial : serial snapshot = 0) by exact Hmig.
  assert (Hev : board_event db' = board_event db).
  { subst db'. unfold createBoard. rewrite Hrows, Hempty. reflexivity. }
  assert (Hhist : selectHistoryAfter db' (id b) 0 = []).
  { apply no_bundles_no_history. rewrite Hev. exact Hnone. }
  assert (Hget : getBoardHistory migrateEvent db' (id b) (serial snapshot)
                   (updateBoardWithEventChunk boardReducer snapshot)
                   (initLoader snapshot)
                 = (initLoader snapshot, Ok tt)).
  { unfold getBoardHistory. rewrite Hserial, Hhist. reflexivity. }
  rewrite (load_of_current_board_aux db' (id b) snapshot _ Hsel Hget).
  - unfold selectTokens. rewrite Htok, Hserial. reflexivity.
  - rewrite Hserial, Hhist. reflexivity.
Qed.

Lemma fetchBoard_tokens (db : DB Item Connection Payload) (boardId : Id)
    (r : BoardAndAccessTokens Item Connection)
    (log : list (Query Item Connection)) :
  fetchBoard boardReducer migrateEvent migrateBoard db boardId
  = (Ok (Some r), log) ->
  accessTokens r = selectTokens db boardId.
Proof.
  unfold fetchBoard. destruct (selectBoard db boardId); [|discriminate].
  destruct (replayHistory _ _ _ _ _) as [[st [[]|e]] hist]; [|discriminate].
  intros H. injection H as <- _. reflexivity.
Qed.

(** X20: a token created for a board is the last of the tokens read for
    that board, the tokens of every other board and all boards' snapshots
    being read as before; so a later successful [fetchBoard] of the board
    lists it. *)
Theorem token_round_trip (db : DB Item Connection Payload)
    (b : Board Item Connection) (token' : string) :
  selectTokens (createAccessToken db b token') (id b)
  = selectTokens db (id b) ++ [token']
  /\ (forall other, other <> id b ->
         selectTokens (createAccessToken db b token') other
         = selectTokens db other)
  /\ (forall boardId,
         selectBoard (createAccessToken db b token') boardId
         = selectBoard db boardId)
  /\ (forall r log,
         fetchBoard boardReducer migrateEvent migrateBoard
           (createAccessToken db b token') (id b) = (Ok (Some r), log) ->
         In token' (accessTokens r)).
Proof.
  assert (Hsel : selectTokens (createAccessToken db b token') (id b)
                 = selectTokens db (id b) ++ [token']).
  { unfold selectTokens, createAccessToken; cbn [board_api_token].
    rewrite List.filter_app, map_app. simpl.
    rewrite bool_decide_eq_true_2 by reflexivity. reflexivity. }
  split; [exact Hsel|]. split; [|split].
  - intros other Hne. unfold selectTokens, createAccessToken; cbn [board_api_token].
    rewrite List.filter_app, map_app. simpl.
    rewrite bool_decide_eq_false_2 by congruence. simpl.
    rewrite app_nil_r. reflexivity.
  - intros boardId. reflexivity.
  - intros r log H. rewrite (fetchBoard_tokens _ _ _ _ H), Hsel.
    apply in_or_app. right. left. reflexivity.
Qed.

End Loads.

(** *** The definitions on concrete stores *)

Lemma append_then_read_witness :
  storeEventHistoryBundle tailDB "b1" [demoEntry "item.add" 6] 0
  = (insertBoardEvent (demoBundle [demoEntry "item.add" 6] 6 6) tailDB, Ok tt)
  /\ last [demoEntry "item.add" 6] ≫= e_serial = Some 6
  /\ streamed noMigrateEvent
       (selectFullHistory
          (insertBoardEvent (demoBundle [demoEntry "item.add" 6] 6 6) tailDB) "b1")
     = streamed noMigrateEvent (selectFullHistory tailDB "b1")
       ++ [map noMigrateEvent [demoEntry "item.add" 6]].
Proof.
  split; [reflexivity|]. split; [reflexivity|].
  refine (proj1 (proj2 (append_then_read noMigrateEvent tailDB _ "b1"
                          (demoEntry "item.add" 6) [] 0 6 eq_refl eq_refl _))).
  intros r [<-|[]]. simpl. lia.
Defined.

Lemma bundles_between_witness :
  getBoardHistoryBundles noMigrateEvent tailDB "b1"
  = Some [ {| hb_board_id := "b1"; hb_last_serial := 5;
              hb_events := map (demoEntry "item.add") [1; 2; 3; 4; 5] |} ]
  /\ getBoardHistoryBundlesWithLastSerialsBetween noMigrateEvent tailDB "b1" 6 9
     = Some [].
Proof.
  split; [reflexivity|].
  exact (bundles_between noMigrateEvent tailDB "b1" 6 9 _ eq_refl).
Defined.

Lemma tailDB_tagged : Forall taggedByEnds (board_event tailDB).
Proof.
  apply Forall_singleton.
  exists (map (demoEntry "item.add") [1; 2; 3; 4; 5]). repeat split.
Defined.

Lemma metas_agree_with_events_witness :
  Forall taggedByEnds (board_event tailDB)
  /\ verifyContinuityFromMetas "b1" 0 (map metaOfRow (board_event tailDB))
     = verifyContinuity "b1" 0 (storedHistories (board_event tailDB)).
Proof.
  split; [exact tailDB_tagged|].
  exact (metas_agree_with_events "b1" 0 (board_event tailDB) tailDB_tagged).
Defined.

Lemma append_keeps_rows_tagged_witness :
  Forall taggedByEnds (board_event tailDB)
  /\ Forall taggedByEnds
       (board_event (fst (storeEventHistoryBundle tailDB "b1"
                            [demoEntry "item.add" 8] 0))).
Proof.
  split; [exact tailDB_tagged|].
  exact (append_keeps_rows_tagged tailDB "b1" [demoEntry "item.add" 8] 0
           tailDB_tagged).
Defined.

Lemma access_policy_round_trip_witness :
  rowsOf gapDB "b1" = board gapDB
  /\ selectBoard (updateAccessPolicy gapDB "b1" (Some demoPolicy)) "b1"
     = Some (withAccessPolicy (demoBoard 0) (Some demoPolicy))
  /\ selectBoard
       (updateAccessPolicy gapDB "b1"
          (Some {| allowList := []; publicRead := false; publicWrite := false |}))
       "b1"
     = Some (withAccessPolicy (demoBoard 0) None).
Proof.
  split; [reflexivity|]. split.
  - exact (proj1 (access_policy_round_trip gapDB "b1" (Some demoPolicy) _ []
                    eq_refl)).
  - exact (proj1 (access_policy_round_trip gapDB "b1"
                    (Some {| allowList := []; publicRead := false;
                             publicWrite := false |}) _ [] eq_refl)).
Defined.

Lemma createBoard_loses_bootstrap_error_witness :
  rowsOf emptyDB (id blankBoard) = []
  /\ neverEmpty blankBoard = false
  /\ e_firstSerial (demoBootstrapNoSerial (id blankBoard) blankBoard) = None
  /\ e_serial (demoBootstrapNoSerial (id blankBoard) blankBoard) = None
  /\ snd (createBoard noMigrateBoard neverEmpty demoBootstrapNoSerial true
            emptyDB blankBoard 0) = Done
  /\ board_event (fst (createBoard noMigrateBoard neverEmpty demoBootstrapNoSerial
                         true emptyDB blankBoard 0)) = board_event emptyDB.
Proof.
  do 4 (split; [reflexivity|]).
  pose proof (createBoard_loses_bootstrap_error noMigrateBoard neverEmpty
                demoBootstrapNoSerial true emptyDB blankBoard 0
                eq_refl eq_refl eq_refl eq_refl) as (_ & Hd & _ & He).
  split; [exact Hd|exact He].
Defined.

Lemma loaded_serial_witness :
  let st := fst (getBoardHistory noMigrateEvent tailDB "b1" 0
                   (updateBoardWithEventChunk specReducer (demoBoard 0))
                   (initLoader (demoBoard 0))) in
  selectBoard tailDB "b1" = Some (demoBoard 0)
  /\ getBoardHistory noMigrateEvent tailDB "b1" 0
       (updateBoardWithEventChunk specReducer (demoBoard 0))
       (initLoader (demoBoard 0)) = (st, Ok tt)
  /\ exists r log,
       fetchBoard specReducer noMigrateEvent noMigrateBoard tailDB "b1"
       = (Ok (Some r), log)
       /\ serial (ba_board r) = 5.
Proof.
  split; [reflexivity|]. split; [reflexivity|].
  destruct (loaded_serial specReducer noMigrateEvent noMigrateBoard tailDB "b1"
              (demoBoard 0) _ eq_refl eq_refl) as (r & log & Hf & Hs & _).
  exists r, log. split; [exact Hf|exact Hs].
Defined.

Lemma load_of_current_board_witness :
  let st := fst (getBoardHistory noMigrateEvent currentDB "b1" 5
                   (updateBoardWithEventChunk specReducer (demoBoard 5))
                   (initLoader (demoBoard 5))) in
  selectBoard currentDB "b1" = Some (demoBoard 5)
  /\ getBoardHistory noMigrateEvent currentDB "b1" 5
       (updateBoardWithEventChunk specReducer (demoBoard 5))
       (initLoader (demoBoard 5)) = (st, Ok tt)
  /\ fetchBoard specReducer noMigrateEvent noMigrateBoard currentDB "b1"
     = (Ok (Some {| ba_board := demoBoard 5; accessTokens := ["t0"] |}),
        [QSelectBoard "b1"; QHistoryAfter "b1" 5; QSelectTokens "b1"]).
Proof.
  split; [reflexivity|]. split; [reflexivity|].
  exact (load_of_current_board specReducer noMigrateEvent noMigrateBoard
           currentDB "b1" (demoBoard 5) _ eq_refl eq_refl eq_refl).
Defined.

Lemma verifyContinuityFromMetas_chain_witness :
  isSafeInteger 0
  /\ Forall (fun m => isSafeInteger (m_last_serial m))
       (map metaOfRow (board_event gapDB))
  /\ verifyContinuityFromMetas "b1" 0 (map metaOfRow (board_event gapDB)) = false
  /\ exists (i : nat) (m : BoardHistoryBundleMeta) (p : Serial),
       map metaOfRow (board_event gapDB) !! i = Some m
       /\ (0 :: map m_last_serial (map metaOfRow (board_event gapDB))) !! i
          = Some p
       /\ m_first_serial m <> p + 1.
Proof.
  assert (H0 : isSafeInteger 0) by (split; reflexivity).
  assert (Hs : Forall (fun m => isSafeInteger (m_last_serial m))
                 (map metaOfRow (board_event gapDB))).
  { repeat constructor. }
  split; [exact H0|]. split; [exact Hs|]. split; [reflexivity|].
  exact (proj1 (proj2 (verifyContinuityFromMetas_chain "b1" 0 _ H0 Hs))
           eq_refl).
Defined.

Lemma snapshot_round_trip_witness :
  rowsOf gapDB (id (demoBoard 9)) = board gapDB
  /\ selectBoard (saveBoardSnapshot (demoBoard 9) gapDB) "b1"
     = Some (demoBoard 9).
Proof.
  split; [reflexivity|].
  exact (proj1 (snapshot_round_trip gapDB (demoBoard 9) _ [] eq_refl)).
Defined.

Lemma store_after_load_witness :
  selectBoard gapDB "b1" = Some (demoBoard 0)
  /\ fetchBoard specReducer noMigrateEvent noMigrateBoard gapDB "b1"
     = (Ok (Some gapRebuilt), gapLog)
  /\ selectBoard (foldl applyQuery gapDB gapLog) "b1"
     = Some (ba_board gapRebuilt).
Proof.
  split; [reflexivity|]. split; [reflexivity|].
  pose proof (store_after_load specReducer noMigrateEvent noMigrateBoard gapDB "b1"
                (demoBoard 0) gapRebuilt gapLog eq_refl eq_refl)
    as (_ & _ & _ & H & _).
  apply H; [|reflexivity].
  right. right. right. left. reflexivity.
Defined.

Lemma create_then_load_witness :
  rowsOf emptyDB (id blankBoard) = []
  /\ alwaysEmpty blankBoard = true
  /\ serial (noMigrateBoard (withSerial blankBoard 0)) = 0
  /\ fst (fetchBoard specReducer noMigrateEvent noMigrateBoard
            (fst (createBoard noMigrateBoard alwaysEmpty demoBootstrap true
                    emptyDB blankBoard 0)) "b2")
     = Ok (Some {| ba_board := blankBoard; accessTokens := [] |}).
Proof.
  do 3 (split; [reflexivity|]).
  exact (f_equal fst
           (create_then_load specReducer noMigrateEvent noMigrateBoard alwaysEmpty
              demoBootstrap true emptyDB blankBoard 0 eq_refl
              (fun row (H : In row []) => match H with end) eq_refl eq_refl)).
Defined.

End BoardAdminFacts.

(* ===================================================================== *)
(** ** Properties of the API token check *)
(* ===================================================================== *)

Module ApiAccessFacts.
Import BoardStore ApiAccess.

Section Check.

Context {Item Connection T : Type}.

Lemma existsb_token (t : string) (tokens : list string) :
  existsb (fun t' => bool_decide (Some t' = Some t)) tokens = true <-> In t tokens.
Proof.
  rewrite existsb_exists. split.
  - intros (t' & Hin & E). apply bool_decide_eq_true_1 in E.
    injection E as <-. exact Hin.
  - intros Hin. exists t. split; [exact Hin|].
    apply bool_decide_eq_true_2. reflexivity.
Qed.

Lemma check_unfold (getBoard : Id -> Loaded Item Connection) (boardId : Id)
    (apiToken : option string)
    (fn : BoardAndAccessTokens Item Connection -> Thrown + T)
    (state : BoardAndAccessTokens Item Connection) :
  getBoard boardId = Got state ->
  checkBoardAPIAccess getBoard boardId apiToken fn
  = if bool_decide (accessPolicy (ba_board state) <> None)
       || (0 <? length (accessTokens state))%nat
    then if tokenMissing apiToken
         then BadRequest "API_TOKEN header is missing"
         else if existsb (fun t => bool_decide (Some t = apiToken))
                         (accessTokens state)
              then respond (fn state)
              else BadRequest "Invalid API_TOKEN"
    else respond (fn state).
Proof. intros H. unfold checkBoardAPIAccess. rewrite H. reflexivity. Qed.

Lemma open_board (state : BoardAndAccessTokens Item Connection) :
  bool_decide (accessPolicy (ba_board state) <> None)
  || (0 <? length (accessTokens state))%nat = false
  <-> accessPolicy (ba_board state) = None /\ accessTokens state = [].
Proof.
  rewrite orb_false_iff. split.
  - intros [Hp Ht]. split.
    + destruct (accessPolicy (ba_board state)); [|reflexivity].
      rewrite bool_decide_eq_true_2 in Hp by discriminate. discriminate Hp.
    + destruct (accessTokens state); [reflexivity|discriminate Ht].
  - intros [-> ->]. split; [|reflexivity].
    apply bool_decide_eq_false_2. intros F. apply F. reflexivity.
Qed.

Lemma token_listed (state : BoardAndAccessTokens Item Connection)
    (apiToken : option string) :
  tokenMissing apiToken = false
  /\ existsb (fun t => bool_decide (Some t = apiToken)) (accessTokens state) = true
  <-> exists t, apiToken = Some t /\ t <> "" /\ In t (accessTokens state).
Proof.
  split.
  - intros [Hm Hl]. destruct apiToken as [t|]; [|discriminate Hm].
    exists t. split; [reflexivity|]. split.
    + intros ->. discriminate Hm.
    + apply existsb_token. exact Hl.
  - intros (t & -> & Hne & Hin). split.
    + apply bool_decide_eq_false_2. exact Hne.
    + apply existsb_token. exact Hin.
Qed.

Lemma check_decision (getBoard : Id -> Loaded Item Connection) (boardId : Id)
    (apiToken : option string)
    (state : BoardAndAccessTokens Item Connection) :
  getBoard boardId = Got state ->
  (granted state apiToken
   /\ forall fn : BoardAndAccessTokens Item Connection -> Thrown + T,
        checkBoardAPIAccess getBoard boardId apiToken fn = respond (fn state))
  \/ (~ granted state apiToken
      /\ exists message,
           forall fn : BoardAndAccessTokens Item Connection -> Thrown + T,
             checkBoardAPIAccess getBoard boardId apiToken fn
             = BadRequest message).
Proof.
  intros Hget. unfold granted.
  pose proof (open_board state) as Hopen.
  pose proof (token_listed state apiToken) as Hlisted.
  destruct (bool_decide (accessPolicy (ba_board state) <> None)
            || (0 <? length (accessTokens state))%nat) eqn:Eg.
  - destruct (tokenMissing apiToken) eqn:Em.
    + right. split.
      * intros [H|H]; [apply Hopen in H; discriminate H|].
        apply Hlisted in H as [H _]. discriminate H.
      * eexists. intros fn. rewrite (check_unfold _ _ _ _ _ Hget), Eg, Em.
        reflexivity.
    + destruct (existsb _ (accessTokens state)) eqn:Ex.
      * left. split; [right; apply Hlisted; split; reflexivity|].
        intros fn. rewrite (check_unfold _ _ _ _ _ Hget), Eg, Em, Ex. reflexivity.
      * right. split.
        -- intros [H|H]; [apply Hopen in H; discriminate H|].
           apply Hlisted in H as [_ H]. discriminate H.
        -- eexists. intros fn.
           rewrite (check_unfold _ _ _ _ _ Hget), Eg, Em, Ex. reflexivity.
  - left. split; [left; apply Hopen; reflexivity|].
    intros fn. rewrite (check_unfold _ _ _ _ _ Hget), Eg. reflexivity.
Qed.

(** X21: for a board that [getBoard] returns, the handler runs, and its
    result or error is the response, exactly when the board has neither an
    access policy nor tokens or the request carries a non-empty token that is
    on the board's list; otherwise the response is a bad request, the same
    whatever the handler. *)
Theorem api_access_granted_iff (getBoard : Id -> Loaded Item Connection)
    (boardId : Id) (apiToken : option string)
    (state : BoardAndAccessTokens Item Connection) :
  getBoard boardId = Got state ->
  (granted state apiToken ->
   forall fn : BoardAndAccessTokens Item Connection -> Thrown + T,
     checkBoardAPIAccess getBoard boardId apiToken fn = respond (fn state))
  /\ (~ granted state apiToken ->
      exists message,
        forall fn : BoardAndAccessTokens Item Connection -> Thrown + T,
          checkBoardAPIAccess getBoard boardId apiToken fn = BadRequest message).
Proof.
  intros Hget.
  destruct (check_decision getBoard boardId apiToken state Hget)
    as [[Hg H]|[Hn H]].
  - split; [intros _; exact H|intros Hn; contradiction].
  - split; [intros Hg; contradiction|intros _; exact H].
Qed.

(** X22: a board that has an access policy but no token is closed to the
    API: every request for it, with or without a token, is answered with a
    bad request and the handler does not run. *)
Theorem policy_without_tokens_is_closed (getBoard : Id -> Loaded Item Connection)
    (boardId : Id) (apiToken : option string)
    (fn : BoardAndAccessTokens Item Connection -> Thrown + T)
    (state : BoardAndAccessTokens Item Connection) :
  getBoard boardId = Got state ->
  accessPolicy (ba_board state) <> None ->
  accessTokens state = [] ->
  checkBoardAPIAccess getBoard boardId apiToken fn
  = BadRequest (if tokenMissing apiToken then "API_TOKEN header is missing"
                else "Invalid API_TOKEN").
Proof.
  intros Hget Hp Ht.
  rewrite (check_unfold _ _ _ _ _ Hget), Ht.
  rewrite bool_decide_eq_true_2 by exact Hp. cbn [orb existsb].
  destruct (tokenMissing apiToken); reflexivity.
Qed.

End Check.

Section Tokens.

Context {Item Connection Payload Inverse T : Type}.
Variable boardReducer :
  Board Item Connection -> BoardHistoryEntry Payload -> ReducerOptions
  -> Res (Board Item Connection * Inverse).
Variable migrateEvent : BoardHistoryEntry Payload -> BoardHistoryEntry Payload.
Variable migrateBoard : Board Item Connection -> Board Item Connection.

(** X23: create a token, load the board, call the API. When the board
    loads after [createAccessToken] with a non-empty token, a request for
    the loaded state that carries this token passes the check and the
    handler's result is the response. *)
Theorem created_token_grants_access (db : DB Item Connection Payload)
    (b : Board Item Connection) (token' : string)
    (r : BoardAndAccessTokens Item Connection)
    (log : list (Query Item Connection))
    (fn : BoardAndAccessTokens Item Connection -> Thrown + T) :
  token' <> "" ->
  fetchBoard boardReducer migrateEvent migrateBoard
    (BoardAdmin.createAccessToken db b token') (id b) = (Ok (Some r), log) ->
  checkBoardAPIAccess (fun _ => Got r) (id b) (Some token') fn = respond (fn r).
Proof.
  intros Hne Hfetch.
  assert (Hin : In token' (accessTokens r)).
  { rewrite (BoardAdminFacts.fetchBoard_tokens _ _ _ _ _ _ _ Hfetch).
    unfold selectTokens, BoardAdmin.createAccessToken; cbn [board_api_token].
    rewrite List.filter_app, map_app. apply in_or_app. right. simpl.
    rewrite bool_decide_eq_true_2 by reflexivity. left. reflexivity. }
  destruct (check_decision (T := T) (fun _ => Got r) (id b) (Some token') r eq_refl)
    as [[_ H]|[Hn _]]; [apply H|].
  exfalso. apply Hn. right. exists token'. auto.
Qed.

End Tokens.

Lemma api_access_granted_iff_witness :
  let state := {| ba_board := demoBoard 5; accessTokens := ["t0"] |} in
  (fun _ : Id => Got state) "b1" = Got state
  /\ granted state (Some "t0")
  /\ checkBoardAPIAccess (T := nat) (fun _ => Got state) "b1" (Some "t0")
       (fun _ => inr 1%nat)
     = Returned 1%nat.
Proof.
  intros state. split; [reflexivity|].
  assert (Hg : granted state (Some "t0")).
  { right. exists "t0". repeat split; [discriminate|left; reflexivity]. }
  split; [exact Hg|].
  exact (proj1 (api_access_granted_iff (T := nat) (fun _ => Got state) "b1"
                  (Some "t0") state eq_refl) Hg (fun _ => inr 1%nat)).
Defined.

Lemma policy_without_tokens_is_closed_witness :
  let state := {| ba_board := BoardAdmin.blankBoard; accessTokens := [] |} in
  accessPolicy (ba_board state) <> None
  /\ accessTokens state = []
  /\ checkBoardAPIAccess (T := nat) (fun _ => Got state) "b2" (Some "anything")
       (fun _ => inr 1%nat)
     = BadRequest "Invalid API_TOKEN".
Proof.
  intros state.
  assert (Hp : accessPolicy (ba_board state) <> None) by discriminate.
  split; [exact Hp|]. split; [reflexivity|].
  exact (policy_without_tokens_is_closed (T := nat) (fun _ => Got state) "b2"
           (Some "anything") (fun _ => inr 1%nat) state eq_refl Hp eq_refl).
Defined.

Lemma created_token_grants_access_witness :
  "t1" <> ""
  /\ fetchBoard specReducer noMigrateEvent noMigrateBoard
       (BoardAdmin.createAccessToken BoardAdmin.currentDB (demoBoard 5) "t1") "b1"
     = (Ok (Some {| ba_board := demoBoard 5; accessTokens := ["t0"; "t1"] |}),
        [QSelectBoard "b1"; QHistoryAfter "b1" 5; QSelectTokens "b1"])
  /\ checkBoardAPIAccess (T := nat)
       (fun _ => Got {| ba_board := demoBoard 5; accessTokens := ["t0"; "t1"] |})
       "b1" (Some "t1") (fun _ => inr 1%nat)
     = Returned 1%nat.
Proof.
  assert (Hne : "t1" <> "") by discriminate.
  split; [exact Hne|]. split; [reflexivity|].
  exact (created_token_grants_access (T := nat) specReducer noMigrateEvent
           noMigrateBoard BoardAdmin.currentDB (demoBoard 5) "t1" _ _
           (fun _ => inr 1%nat) Hne eq_refl).
Defined.

End ApiAccessFacts.

(* ===================================================================== *)
(** ** Properties of moving items into containers *)
(* ===================================================================== *)

Module ContainersFacts.
Import Containers.

Section Moves.

Context {Geometry : Type}.
Variable containedBy : Item Geometry -> Item Geometry -> bool.

Lemma findFrom_found (p : Item Geometry -> bool) (l : list (Item Geometry))
    (k0 k : nat) (x : Item Geometry) :
  findFrom p k0 l = Some (k, x) ->
  exists pre post,
    l = pre ++ x :: post
    /\ k = (k0 + length pre)%nat
    /\ p x = true
    /\ forall y, In y pre -> p y = false.
Proof.
  revert k0; induction l as [|i rest IH]; intros k0 H; [discriminate H|].
  cbn [findFrom] in H. destruct (p i) eqn:Ei.
  - injection H as <- <-. exists [], rest. repeat split; [simpl; lia|exact Ei|].
    intros y [].
  - destruct (IH (S k0) H) as (pre & post & -> & -> & Hx & Hpre).
    exists (i :: pre), post. repeat split; [simpl; lia|exact Hx|].
    intros y [<-|Hy]; [exact Ei|auto].
Qed.

Lemma findFrom_none (p : Item Geometry -> bool) (l : list (Item Geometry))
    (k0 : nat) :
  findFrom p k0 l = None <-> forall y, In y l -> p y = false.
Proof.
  revert k0; induction l as [|i rest IH]; intros k0; cbn [findFrom].
  - split; [intros _ y []|reflexivity].
  - destruct (p i) eqn:Ei.
    + split; [discriminate|]. intros H. specialize (H i (or_introl eq_refl)).
      congruence.
    + rewrite IH. split.
      * intros H y [<-|Hy]; [exact Ei|auto].
      * intros H y Hy. apply H. right; exact Hy.
Qed.

Lemma same_position (p q : Item Geometry -> bool) (l : list (Item Geometry))
    (k : nat) (x y : Item Geometry) :
  find p l = Some (k, x) -> find q l = Some (k, y) -> x = y.
Proof.
  unfold find. intros Hp Hq.
  destruct (findFrom_found _ _ _ _ _ Hp) as (pre & post & -> & Hk & _).
  destruct (findFrom_found _ _ _ _ _ Hq) as (pre' & post' & Heq & Hk' & _).
  assert (Hlen : length pre = length pre') by lia.
  apply app_inj_1 in Heq as [_ Heq]; [|exact Hlen]. congruence.
Qed.

Lemma maybeAddToContainer_decision_aux (item : Item Geometry) (b : Board Geometry) :
  maybeAddToContainer containedBy item b
  = if isContainer item then []
    else
      match find (lists item) (b_items b),
            find (holds containedBy item) (b_items b) with
      | Some (_, c), new =>
          if containedBy item c then []
          else [ItemSetContainer (b_id b) (i_id item)
                  (option_map (fun f => i_id (snd f)) new)]
      | None, Some (_, n) =>
          [ItemSetContainer (b_id b) (i_id item) (Some (i_id n))]
      | None, None => []
      end.
Proof.
  unfold maybeAddToContainer.
  destruct (isContainer item); [reflexivity|]. cbn [negb].
  destruct (find (lists item) (b_items b)) as [[k c]|] eqn:Ec.
  - destruct (containedBy item c) eqn:Eh; [reflexivity|].
    destruct (find (holds containedBy item) (b_items b)) as [[k' n]|] eqn:En;
      [|reflexivity].
    cbn [differ]. destruct (Nat.eqb_spec k' k) as [->|Hne]; [|reflexivity].
    exfalso. pose proof (same_position _ _ _ _ _ _ Ec En) as ->.
    unfold find in En.
    destruct (findFrom_found _ _ _ _ _ En) as (_ & _ & _ & _ & Hn & _).
    unfold holds in Hn. apply andb_prop in Hn as [_ Hn]. congruence.
  - destruct (find (holds containedBy item) (b_items b)) as [[k' n]|];
      reflexivity.
Qed.

(** X24: what the comparison of the two containers found amounts to. An
    item that is a container is never moved. For any other item: if the
    first container that lists it also holds it, nothing is dispatched; if a
    container lists it without holding it, one event is always dispatched,
    to the first container that holds the item or to none; if no container
    lists it, one event is dispatched exactly when some container holds it. *)
Theorem maybeAddToContainer_decision (item : Item Geometry) (b : Board Geometry) :
  maybeAddToContainer containedBy item b
  = if isContainer item then []
    else
      match find (lists item) (b_items b),
            find (holds containedBy item) (b_items b) with
      | Some (_, c), new =>
          if containedBy item c then []
          else [ItemSetContainer (b_id b) (i_id item)
                  (option_map (fun f => i_id (snd f)) new)]
      | None, Some (_, n) =>
          [ItemSetContainer (b_id b) (i_id item) (Some (i_id n))]
      | None, None => []
      end.
Proof. apply maybeAddToContainer_decision_aux. Qed.

(** X25: whatever is dispatched is about this item on this board, and
    there is at most one event. Its target, when there is one, is the first
    item of the board that is a container holding the item; when there is
    none, no container of the board holds the item while some container
    still lists it. *)
Theorem maybeAddToContainer_target (item : Item Geometry) (b : Board Geometry) :
  (length (maybeAddToContainer containedBy item b) <= 1)%nat
  /\ forall boardId itemId target,
       In (ItemSetContainer boardId itemId target)
          (maybeAddToContainer containedBy item b) ->
       boardId = b_id b /\ itemId = i_id item /\ isContainer item = false
       /\ match target with
          | Some containerId =>
              exists pre c post,
                b_items b = pre ++ c :: post
                /\ i_id c = containerId
                /\ isContainer c = true
                /\ containedBy item c = true
                /\ forall y, In y pre -> holds containedBy item y = false
          | None =>
              (forall y, In y (b_items b) -> holds containedBy item y = false)
              /\ exists c, In c (b_items b) /\ lists item c = true
                           /\ containedBy item c = false
          end.
Proof.
  rewrite maybeAddToContainer_decision_aux.
  destruct (isContainer item) eqn:Ei; [split; [simpl; lia|intros ? ? ? []]|].
  assert (Hnew : forall k n,
             find (holds containedBy item) (b_items b) = Some (k, n) ->
             exists pre c post,
               b_items b = pre ++ c :: post /\ i_id c = i_id n
               /\ isContainer c = true /\ containedBy item c = true
               /\ forall y, In y pre -> holds containedBy item y = false).
  { intros k n Hn. unfold find in Hn.
    destruct (findFrom_found _ _ _ _ _ Hn) as (pre & post & Hl & _ & Hh & Hpre).
    unfold holds in Hh. apply andb_prop in Hh as [Hc Hh].
    exists pre, n, post. auto. }
  destruct (find (lists item) (b_items b)) as [[k c]|] eqn:Ec.
  - destruct (containedBy item c) eqn:Eh; [split; [simpl; lia|intros ? ? ? []]|].
    split; [simpl; lia|].
    intros boardId itemId target [H|[]]. injection H as <- <- <-.
    repeat split.
    destruct (find (holds containedBy item) (b_items b)) as [[k' n]|] eqn:En;
      cbn [option_map snd].
    + exact (Hnew k' n eq_refl).
    + split; [apply (findFrom_none _ _ 0%nat); exact En|].
      unfold find in Ec.
      destruct (findFrom_found _ _ _ _ _ Ec) as (pre & post & Hl & _ & Hc & _).
      exists c. repeat split; [rewrite Hl; apply in_or_app; right; left; reflexivity
                              |exact Hc|exact Eh].
  - destruct (find (holds containedBy item) (b_items b)) as [[k' n]|] eqn:En;
      [|split; [simpl; lia|intros ? ? ? []]].
    split; [simpl; lia|].
    intros boardId itemId target [H|[]]. injection H as <- <- <-.
    repeat split. exact (Hnew k' n eq_refl).
Qed.

End Moves.

End ContainersFacts.

(* ===================================================================== *)
(** ** More properties of the outbound queue *)
(* ===================================================================== *)

Module SyncQueueMoreFacts.
Import SyncQueue SyncQueueMore SyncQueueFacts.

Section More.

Context {AppEvent : Type}.
Variable addOrReplaceEvent : AppEvent -> list AppEvent -> list AppEvent.

Lemma step_tracks (out : list (Batch AppEvent)) (s : QueueState AppEvent)
    (op : Op AppEvent) :
  tracks out s ->
  tracks (out ++ snd (step addOrReplaceEvent s op))
         (fst (step addOrReplaceEvent s op)).
Proof.
  intros [Hne Hlast]. rewrite step_atSend.
  destruct (sendIfPossible_cases (atSend addOrReplaceEvent s op))
    as [[_ ->]|(_ & Hq & ->)]; cbn [fst snd].
  - rewrite app_nil_r. split; [exact Hne|].
    destruct op; cbn [atSend foldIn clearSent sent]; auto.
  - split.
    + apply Forall_app. split; [exact Hne|]. apply Forall_singleton. exact Hq.
    + right. cbn [sent]. rewrite last_snoc. reflexivity.
Qed.

Lemma run_tracks (ops : list (Op AppEvent)) (out : list (Batch AppEvent))
    (s : QueueState AppEvent) :
  tracks out s ->
  tracks (out ++ snd (run addOrReplaceEvent ops s))
         (fst (run addOrReplaceEvent ops s)).
Proof.
  revert out s; induction ops as [|op ops IH]; intros out s H.
  - simpl. rewrite app_nil_r. exact H.
  - rewrite run_cons; cbn [fst snd]. rewrite app_assoc.
    apply IH, step_tracks, H.
Qed.

(** X26: over any run from the empty queue, no empty batch is ever
    transmitted, and the in-flight list is at each moment either empty or
    the batch transmitted last. *)
Theorem in_flight_is_last_batch (ops : list (Op AppEvent)) :
  Forall (fun batch => batch <> []) (snd (run addOrReplaceEvent ops init))
  /\ (sent (fst (run addOrReplaceEvent ops init)) = []
      \/ last (snd (run addOrReplaceEvent ops init))
         = Some (sent (fst (run addOrReplaceEvent ops init)))).
Proof.
  apply (run_tracks ops [] init). split; [constructor|left; reflexivity].
Qed.

(** X27: sending neither drops nor reorders an event. In every state, after
    a reaction the in-flight list followed by the queue is: for an enqueue,
    the old in-flight list followed by the queue with the event folded in;
    for an acknowledgement or a reconnect, the old queue alone. *)
Theorem pending_after_step (s : QueueState AppEvent) (op : Op AppEvent) :
  sent (fst (step addOrReplaceEvent s op))
  ++ queue (fst (step addOrReplaceEvent s op))
  = match op with
    | Enqueue event => sent s ++ addOrReplaceEvent event (queue s)
    | Ack | Reconnect => queue s
    end.
Proof.
  rewrite step_atSend.
  destruct (sendIfPossible_cases (atSend addOrReplaceEvent s op))
    as [[_ ->]|(Hs & _ & ->)]; cbn [fst sent queue].
  - destruct op; reflexivity.
  - rewrite app_nil_r.
    destruct op; cbn [atSend foldIn clearSent sent queue] in *;
      rewrite ?Hs; reflexivity.
Qed.

(** X28: with a folding function that keeps the event it is given, an
    enqueued event is transmitted at the latest when the next
    acknowledgement arrives: from any state, the enqueue followed by an
    acknowledgement transmits a batch that contains the event. *)
Theorem enqueued_event_is_sent (s : QueueState AppEvent) (event : AppEvent) :
  (forall e q, In e (addOrReplaceEvent e q)) ->
  exists batch,
    In batch (snd (run addOrReplaceEvent [Enqueue event; Ack] s))
    /\ In event batch.
Proof.
  intros Hkeep.
  exists (addOrReplaceEvent event (queue s)). split; [|apply Hkeep].
  assert (Hne : addOrReplaceEvent event (queue s) <> []).
  { intros F. specialize (Hkeep event (queue s)). rewrite F in Hkeep.
    destruct Hkeep. }
  destruct s as [q [|x t]]; cbn [queue] in *;
    simpl; unfold enqueue, ack, sendIfPossible, foldIn, clearSent; simpl;
    destruct (addOrReplaceEvent event q) as [|y l] eqn:E; try congruence;
    simpl; left; reflexivity.
Qed.

End More.

Lemma enqueued_event_is_sent_witness :
  (forall e q, In e (appendEvent e q))
  /\ exists batch,
       In batch (snd (run appendEvent [Enqueue 7%nat; Ack]
                        {| queue := [1%nat]; sent := [0%nat] |}))
       /\ In 7%nat batch.
Proof.
  assert (H : forall e q, In e (appendEvent e q)).
  { intros e q. unfold appendEvent. apply in_or_app. right. left. reflexivity. }
  split; [exact H|].
  exact (enqueued_event_is_sent appendEvent
           {| queue := [1%nat]; sent := [0%nat] |} 7%nat H).
Defined.

End SyncQueueMoreFacts.
